(** * Graph builder of pkg/graph/graph.go

    A shallow embedding of the Knative topology graph builder.  The builder
    owns a [dot.Graph] document and three indexes (node index, subgraph
    index, address index); every [Add*] method mutates them.  The embedding
    threads the builder through a small state-and-panic monad, allocates the
    objects behind [*dot.Node] and [*dot.SubGraph] in explicit heaps (so that
    pointer identity and mutation through an alias are visible), and keeps
    the Go maps as [gmap]s. *)

From Stdlib Require Import ZArith Lia Ascii.
From stdpp Require Import base option list strings gmap pretty.


(** ** Strings: the pieces of [strings] and [fmt] the builder uses *)

(** The line feed of the ["\n"] in the format strings. *)
Definition nl : string := String (Ascii.ascii_of_nat 10) EmptyString.

(** [strings.ToLower], on byte strings: the ASCII letters [A]..[Z] are
    folded, every other byte is kept.  This is [strings.ToLower] on ASCII
    text; on other text the library also folds the letters outside ASCII,
    so a property that needs two keys to differ is stated for ASCII text
    ([ascii_only]). *)
Definition lower_ascii (c : ascii) : ascii :=
  let n := Ascii.nat_of_ascii c in
  if (65 <=? n)%nat && (n <=? 90)%nat then Ascii.ascii_of_nat (n + 32) else c.

Fixpoint ToLower (s : string) : string :=
  match s with
  | EmptyString => EmptyString
  | String c s' => String (lower_ascii c) (ToLower s')
  end.

(** [strings.TrimSuffix s suffix]: [s] without the trailing [suffix], or [s]
    itself when it does not end with it. *)
Fixpoint TrimSuffix (s suffix : string) : string :=
  if String.eqb s suffix then EmptyString
  else match s with
       | EmptyString => EmptyString
       | String c s' => String c (TrimSuffix s' suffix)
       end.

(** ** Canonical keys (graph.go, lines 379-429) *)

Definition key (group version kind name : string) : string :=
  ToLower (group +:+ "/" +:+ version +:+ "/" +:+ kind +:+ "/" +:+ name).

Definition eventingKey (kind name : string) : string :=
  key "eventing.knative.dev" "v1alpha1" kind name.

Definition messagingKey (kind name : string) : string :=
  key "messaging.knative.dev" "v1alpha1" kind name.

Definition servingKey (kind name : string) : string :=
  key "serving.knative.dev" "v1beta1" kind name.

Definition channelKey (name : string) : string := eventingKey "channel" name.
Definition subscriptionKey (name : string) : string := eventingKey "subscription" name.
Definition brokerKey (name : string) : string := eventingKey "broker" name.
Definition triggerKey (name : string) : string := eventingKey "trigger" name.
Definition sequenceKey (name : string) : string := messagingKey "sequence" name.

Definition sequenceStepKey (name : string) (step : nat) : string :=
  messagingKey "sequencestep" (name +:+ "-" +:+ pretty step).

Definition uriKey (uri : string) : string := ToLower ("uri/" +:+ uri).

Definition refKey (apiVersion kind name : string) : string :=
  ToLower (apiVersion +:+ "/" +:+ kind +:+ "/" +:+ name).

(** [schema.GroupVersionKind] and the parsing of an [apiVersion] that
    [ObjectReference.GroupVersionKind()] and [TypeMeta.GroupVersionKind()]
    perform ([schema.FromAPIVersionAndKind] of k8s.io/apimachinery). *)
Record GroupVersionKind := mkGVK { Group : string; Version : string; Kind : string }.

Fixpoint countSlash (s : string) : nat :=
  match s with
  | EmptyString => 0
  | String c s' => (if Ascii.eqb c "/" then 1 else 0) + countSlash s'
  end.

(** The text before and after the first ["/"]. *)
Fixpoint cutSlash (s : string) : string * string :=
  match s with
  | EmptyString => (EmptyString, EmptyString)
  | String c s' =>
      if Ascii.eqb c "/" then (EmptyString, s')
      else let '(a, b) := cutSlash s' in (String c a, b)
  end.

Definition ParseGroupVersion (gv : string) : option (string * string) :=
  if String.eqb gv "" || String.eqb gv "/" then Some ("", "")
  else match countSlash gv with
       | 0 => Some ("", gv)
       | 1 => Some (cutSlash gv)
       | _ => None
       end.

Definition FromAPIVersionAndKind (apiVersion kind : string) : GroupVersionKind :=
  match ParseGroupVersion apiVersion with
  | Some (g, v) => mkGVK g v kind
  | None => mkGVK "" "" kind
  end.

Definition gvkKey (gvk : GroupVersionKind) (name : string) : string :=
  ToLower (Group gvk +:+ "/" +:+ Version gvk +:+ "/" +:+ Kind gvk +:+ "/" +:+ name).

(** ** The resources handed to the builder

    Only the fields graph.go reads are kept.  A status address is carried as
    the text [(&uri).String()] of [Status.Address.GetURL()], which the
    Knative and net/url libraries compute. *)

Record ObjectReference := mkRef {
  ref_APIVersion : string;
  ref_Kind : string;
  ref_Name : string }.

Definition ref_GroupVersionKind (r : ObjectReference) : GroupVersionKind :=
  FromAPIVersionAndKind (ref_APIVersion r) (ref_Kind r).

Record SubscriberSpec := mkSubscriber {
  sub_Ref : option ObjectReference;
  sub_URI : option string }.

Record ReplyStrategy := mkReply { reply_Channel : option ObjectReference }.

Record Channel := mkChannel {
  chan_Name : string;
  chan_Kind : string;
  chan_APIVersion : string;
  chan_Address : string }.

Record Subscription := mkSubscription {
  subn_Name : string;
  subn_Channel : ObjectReference;
  subn_Subscriber : option SubscriberSpec;
  subn_Reply : option ReplyStrategy }.

Record Broker := mkBroker {
  brk_Name : string;
  brk_Address : string }.

Record SourceType := mkSource {
  src_Name : string;
  src_Kind : string;
  src_APIVersion : string;
  src_SinkURI : option string }.

Record TriggerFilterSourceAndType := mkSourceAndType {
  flt_Source : string;
  flt_Type : string }.

Record TriggerFilter := mkFilter { flt_SourceAndType : option TriggerFilterSourceAndType }.

Record Trigger := mkTrigger {
  trg_Name : string;
  trg_Broker : string;
  trg_Filter : option TriggerFilter;
  trg_Subscriber : option SubscriberSpec }.

Record EnvVar := mkEnv { env_Name : string; env_Value : string }.

Record Container := mkContainer { ctr_Env : list EnvVar }.

Record Service := mkService {
  svc_Name : string;
  svc_Kind : string;
  svc_APIVersion : string;
  svc_Containers : list Container }.

Record Sequence := mkSequence {
  seq_Name : string;
  seq_Address : string;
  seq_Steps : list SubscriberSpec;
  seq_Reply : option ObjectReference }.

(** ** The drawing backend (github.com/tmc/dot)

    The backend is an external collaborator: nodes, subgraphs and edges are
    created, attributes are set on them, and they are appended to the
    document in creation order.  A [*dot.Node] is an index into the node
    heap, a [*dot.SubGraph] an index into the subgraph heap; [None] is the
    nil pointer. *)

Abbreviation NodeId := nat.
Abbreviation SubGraphId := nat.
Abbreviation Attrs := (gmap string string).

Record Node := mkNode { node_name : string; node_attrs : Attrs }.

Record SubGraph := mkSubGraph {
  sg_name : string;
  sg_attrs : Attrs;
  sg_nodes : list NodeId }.

Record Edge := mkEdge {
  edge_src : option NodeId;
  edge_dst : option NodeId;
  edge_attrs : Attrs }.

Record DotGraph := mkDot {
  dot_name : string;
  dot_attrs : Attrs;
  dot_nodes : list NodeId;
  dot_subgraphs : list SubGraphId;
  dot_edges : list Edge }.

(** ** The builder (graph.go, lines 16-24) together with the two heaps *)

Record Graph := mkGraph {
  Graph_ : DotGraph;
  nodes : gmap string NodeId;
  subgraphs : gmap string SubGraphId;
  dnsToKey : gmap string string;
  edgeCount : Z;
  rainbowEdge : bool;
  node_heap : list Node;
  subgraph_heap : list SubGraph }.

Definition with_dot (f : DotGraph -> DotGraph) (g : Graph) : Graph :=
  mkGraph (f (Graph_ g)) (nodes g) (subgraphs g) (dnsToKey g) (edgeCount g)
          (rainbowEdge g) (node_heap g) (subgraph_heap g).

Definition with_nodes (f : gmap string NodeId -> gmap string NodeId) (g : Graph) : Graph :=
  mkGraph (Graph_ g) (f (nodes g)) (subgraphs g) (dnsToKey g) (edgeCount g)
          (rainbowEdge g) (node_heap g) (subgraph_heap g).

Definition with_subgraphs (f : gmap string SubGraphId -> gmap string SubGraphId)
    (g : Graph) : Graph :=
  mkGraph (Graph_ g) (nodes g) (f (subgraphs g)) (dnsToKey g) (edgeCount g)
          (rainbowEdge g) (node_heap g) (subgraph_heap g).

Definition with_dnsToKey (f : gmap string string -> gmap string string) (g : Graph) : Graph :=
  mkGraph (Graph_ g) (nodes g) (subgraphs g) (f (dnsToKey g)) (edgeCount g)
          (rainbowEdge g) (node_heap g) (subgraph_heap g).

Definition with_edgeCount (f : Z -> Z) (g : Graph) : Graph :=
  mkGraph (Graph_ g) (nodes g) (subgraphs g) (dnsToKey g) (f (edgeCount g))
          (rainbowEdge g) (node_heap g) (subgraph_heap g).

Definition with_node_heap (f : list Node -> list Node) (g : Graph) : Graph :=
  mkGraph (Graph_ g) (nodes g) (subgraphs g) (dnsToKey g) (edgeCount g)
          (rainbowEdge g) (f (node_heap g)) (subgraph_heap g).

Definition with_subgraph_heap (f : list SubGraph -> list SubGraph) (g : Graph) : Graph :=
  mkGraph (Graph_ g) (nodes g) (subgraphs g) (dnsToKey g) (edgeCount g)
          (rainbowEdge g) (node_heap g) (f (subgraph_heap g)).

(** ** The monad: the builder as state, a panic as the only failure *)

Inductive Result (A : Type) : Type :=
| Ok (a : A) (g : Graph)
| Panic (msg : string).
Arguments Ok {A} a g.
Arguments Panic {A} msg.

Definition M (A : Type) : Type := Graph -> Result A.

Definition M_ret {A} (a : A) : M A := fun g => Ok a g.

Definition M_bind {A B} (k : A -> M B) (m : M A) : M B :=
  fun g => match m g with
           | Ok a g' => k a g'
           | Panic msg => Panic msg
           end.

#[global] Instance M_mret : MRet M := @M_ret.
#[global] Instance M_mbind : MBind M := @M_bind.

Definition panic {A} (msg : string) : M A := fun _ => Panic msg.
Definition gets {A} (f : Graph -> A) : M A := fun g => Ok (f g) g.
Definition modify (f : Graph -> Graph) : M unit := fun g => Ok tt (f g).

(** The builder an operation leaves behind, when it returns. *)
Definition exec {A} (m : M A) (g : Graph) : option Graph :=
  match m g with
  | Ok _ g' => Some g'
  | Panic _ => None
  end.

(** *** Backend calls *)

Definition node_set (k v : string) (nd : Node) : Node :=
  mkNode (node_name nd) (<[k:=v]> (node_attrs nd)).

Definition sg_set (k v : string) (sg : SubGraph) : SubGraph :=
  mkSubGraph (sg_name sg) (<[k:=v]> (sg_attrs sg)) (sg_nodes sg).

Definition sg_add_node (n : NodeId) (sg : SubGraph) : SubGraph :=
  mkSubGraph (sg_name sg) (sg_attrs sg) (sg_nodes sg ++ [n]).

Definition dot_add_node (n : NodeId) (d : DotGraph) : DotGraph :=
  mkDot (dot_name d) (dot_attrs d) (dot_nodes d ++ [n]) (dot_subgraphs d) (dot_edges d).

Definition dot_add_subgraph (s : SubGraphId) (d : DotGraph) : DotGraph :=
  mkDot (dot_name d) (dot_attrs d) (dot_nodes d) (dot_subgraphs d ++ [s]) (dot_edges d).

Definition dot_add_edge (e : Edge) (d : DotGraph) : DotGraph :=
  mkDot (dot_name d) (dot_attrs d) (dot_nodes d) (dot_subgraphs d) (dot_edges d ++ [e]).

(** [dot.NewNode(name)] *)
Definition NewNode (name : string) : M NodeId :=
  n ← gets (fun g => length (node_heap g));
  modify (with_node_heap (fun h => h ++ [mkNode name ∅]));;
  mret n.

(** [n.Set(k, v)] *)
Definition NodeSet (n : NodeId) (k v : string) : M unit :=
  modify (with_node_heap (alter (node_set k v) n)).

(** [n.Name()] *)
Definition NodeName (n : NodeId) : M string :=
  gets (fun g => default "" (node_name <$> node_heap g !! n)).

(** [dot.NewSubgraph(name)] *)
Definition NewSubgraph (name : string) : M SubGraphId :=
  s ← gets (fun g => length (subgraph_heap g));
  modify (with_subgraph_heap (fun h => h ++ [mkSubGraph name ∅ []]));;
  mret s.

(** [sg.Set(k, v)] *)
Definition SubGraphSet (s : SubGraphId) (k v : string) : M unit :=
  modify (with_subgraph_heap (alter (sg_set k v) s)).

(** [sg.AddNode(n)] *)
Definition SubGraphAddNode (s : SubGraphId) (n : NodeId) : M unit :=
  modify (with_subgraph_heap (alter (sg_add_node n) s)).

(** [sg.Name()] *)
Definition SubGraphName (s : SubGraphId) : M string :=
  gets (fun g => default "" (sg_name <$> subgraph_heap g !! s)).

(** [g.AddNode(n)], [g.AddSubgraph(sg)], [g.AddEdge(e)] on the document *)
Definition AddNode (n : NodeId) : M unit := modify (with_dot (dot_add_node n)).

Definition AddSubgraph (s : SubGraphId) : M unit := modify (with_dot (dot_add_subgraph s)).

Definition AddEdge (e : Edge) : M unit := modify (with_dot (dot_add_edge e)).

(** [dot.NewEdge(src, dst)] and [e.Set(k, v)]: an edge is completed before it
    is added, so it is built as a value. *)
Definition NewEdge (src dst : option NodeId) : Edge := mkEdge src dst ∅.

Definition EdgeSet (e : Edge) (k v : string) : Edge :=
  mkEdge (edge_src e) (edge_dst e) (<[k:=v]> (edge_attrs e)).

(** ** [New] (graph.go, lines 26-42) *)

Definition New (ns : string) : Graph :=
  let attrs : Attrs :=
    <["rankdir":="LR"]> (<["label":="Triggers in " +:+ ns]> (<["shape":="box"]> ∅)) in
  mkGraph (mkDot "G" attrs [] [] []) ∅ ∅ ∅ 0 true [] [].

(** ** Go runtime: [int] arithmetic and slice indexing *)

(** Go's [int] is a 64-bit two's complement integer; [wrap_int] is the value
    an arithmetic result takes in it. *)
Definition wrap_int (z : Z) : Z := ((z + 2 ^ 63) mod 2 ^ 64 - 2 ^ 63)%Z.

(** [l[i]]: the element, or the run-time panic of an index out of range. *)
Definition index {A} (l : list A) (i : Z) : M A :=
  if decide (i < 0)%Z then panic "runtime error: index out of range"
  else match l !! Z.to_nat i with
       | Some x => mret x
       | None => panic "runtime error: index out of range"
       end.

(** [for _, x := range l { body x }] *)
Fixpoint forM_ {A} (l : list A) (body : A -> M unit) : M unit :=
  match l with
  | [] => mret tt
  | x :: l' => body x;; forM_ l' body
  end.

(** ** Helpers of the builder *)

(** [setNodeShapeForKind] (graph.go, lines 303-310) *)
Definition setNodeShapeForKind (node : NodeId) (kind apiVersion : string) : M unit :=
  if decide (apiVersion = "serving.knative.dev/v1beta1") then
    if decide (kind = "Service") then NodeSet node "shape" "septagon" else mret tt
  else mret tt.

(** [sinkDNS] (graph.go, lines 372-377) *)
Definition sinkDNS (source : SourceType) : string :=
  match src_SinkURI source with
  | Some uri => TrimSuffix uri "/"
  | None => ""
  end.

(** The key and the label [getOrCreateSubscriber] derives from a subscriber
    (graph.go, lines 326-345). *)
Definition subscriberKeyLabel (subscriber : option SubscriberSpec) : string * string :=
  match subscriber with
  | Some s =>
      match sub_URI s with
      | Some uri => (uriKey uri, uri)
      | None =>
          match sub_Ref s with
          | Some r =>
              (refKey (ref_APIVersion r) (ref_Kind r) (ref_Name r),
               ref_Name r +:+ nl +:+ "Kind: " +:+ ref_Kind r +:+ nl +:+ ref_APIVersion r)
          | None => ("?", "?")
          end
      end
  | None => ("?", "?")
  end.

Definition subscriberKey (subscriber : option SubscriberSpec) : string :=
  fst (subscriberKeyLabel subscriber).

Definition subscriberLabel (subscriber : option SubscriberSpec) : string :=
  snd (subscriberKeyLabel subscriber).

(** [getOrCreateSubscriber] (graph.go, lines 325-358) *)
Definition getOrCreateSubscriber (subscriber : option SubscriberSpec) : M (option NodeId) :=
  let key := subscriberKey subscriber in
  let label := subscriberLabel subscriber in
  found ← gets (fun g => nodes g !! key);
  match found with
  | Some sub => mret (Some sub)
  | None =>
      sub ← NewNode label;
      match subscriber with
      | Some s =>
          match sub_Ref s with
          | Some r => setNodeShapeForKind sub (ref_Kind r) (ref_APIVersion r)
          | None => mret tt
          end
      | None => mret tt
      end;;
      modify (with_nodes <[key:=sub]>);;
      AddNode sub;;
      mret (Some sub)
  end.

(** [getOrCreateReply] (graph.go, lines 360-370): the node built in the
    not-found branch is bound to the [cn] of the [if] statement only. *)
Definition getOrCreateReply (rep : option ReplyStrategy) : M (option NodeId) :=
  match rep with
  | Some r =>
      match reply_Channel r with
      | Some ch =>
          let ck := channelKey (ref_Name ch) in
          found ← gets (fun g => nodes g !! ck);
          match found with
          | None => _ ← NewNode ("Unknown Channel " +:+ ref_Name ch); mret None
          | Some cn => mret (Some cn)
          end
      | None => mret None
      end
  | None => mret None
  end.

(** [getOrCreateSink] (graph.go, lines 312-323): [key] keeps the zero value
    [""] when the address is not indexed, and the result is [g.nodes[key]]. *)
Definition getOrCreateSink (uri : string) : M (option NodeId) :=
  let uri := TrimSuffix uri "/" in
  found ← gets (fun g => dnsToKey g !! uri);
  key ← match found with
        | Some key => mret key
        | None =>
            node ← NewNode ("UnknownSink " +:+ uri);
            AddNode node;;
            mret ""
        end;
  gets (fun g => nodes g !! key).

(** How [AddSource] finds the node behind a sink address (graph.go, lines
    132-142): not indexed, indexed under a key without a node, or resolved. *)
Inductive SinkLookup :=
| SinkNotIndexed
| SinkKeyWithoutNode (bk : string)
| SinkResolved (bk : string) (bn : NodeId).

Definition lookupSink (sink : string) (g : Graph) : SinkLookup :=
  match dnsToKey g !! sink with
  | None => SinkNotIndexed
  | Some bk =>
      match nodes g !! bk with
      | None => SinkKeyWithoutNode bk
      | Some bn => SinkResolved bk bn
      end
  end.

(** ** The add operations *)

(** [AddChannel] (graph.go, lines 54-73) *)
Definition AddChannel (channel : Channel) : M unit :=
  let ck := channelKey (chan_Name channel) in
  let dns := TrimSuffix (chan_Address channel) "/" in
  cn ← NewNode ("Channel " +:+ chan_Name channel);
  setNodeShapeForKind cn (chan_Kind channel) (chan_APIVersion channel);;
  NodeSet cn "shape" "oval";;
  NodeSet cn "label" "Ingress";;
  modify (with_nodes <[ck:=cn]>);;
  modify (with_dnsToKey <[dns:=ck]>);;
  count ← gets (fun g => size (subgraphs g));
  cg ← NewSubgraph ("cluster_" +:+ pretty count);
  SubGraphSet cg "label" ("Channel " +:+ chan_Name channel +:+ nl +:+ dns);;
  modify (with_subgraphs <[ck:=cg]>);;
  SubGraphAddNode cg cn;;
  AddSubgraph cg.

(** [AddBroker] (graph.go, lines 101-117) *)
Definition AddBroker (broker : Broker) : M unit :=
  let key := brokerKey (brk_Name broker) in
  let dns := TrimSuffix (brk_Address broker) "/" in
  bn ← NewNode ("Broker " +:+ dns);
  NodeSet bn "shape" "oval";;
  NodeSet bn "label" "Ingress";;
  modify (with_nodes <[key:=bn]>);;
  modify (with_dnsToKey <[dns:=key]>);;
  count ← gets (fun g => size (subgraphs g));
  bg ← NewSubgraph ("cluster_" +:+ pretty count);
  SubGraphSet bg "label" ("Broker " +:+ brk_Name broker +:+ nl +:+ dns);;
  modify (with_subgraphs <[key:=bg]>);;
  SubGraphAddNode bg bn;;
  AddSubgraph bg.

(** [AddSource] (graph.go, lines 119-151), in its two parts: the node of
    the source is created and registered (lines 120-124), then the sink is
    wired (lines 126-150). *)
Definition AddSource_node (source : SourceType) : M NodeId :=
  let key := gvkKey (FromAPIVersionAndKind (src_APIVersion source) (src_Kind source))
                    (src_Name source) in
  sn ← NewNode ("Source " +:+ src_Name source +:+ nl +:+ "Kind: " +:+ src_Kind source
                 +:+ nl +:+ src_APIVersion source);
  NodeSet sn "shape" "box";;
  AddNode sn;;
  modify (with_nodes <[key:=sn]>);;
  mret sn.

Definition AddSource_sink (source : SourceType) (sn : NodeId) : M unit :=
  let sink := sinkDNS source in
  if decide (sink ≠ "") then
    found ← gets (lookupSink sink);
    '(bk, bn) ← match found with
                | SinkNotIndexed =>
                    bn ← NewNode ("UnknownSink " +:+ sink); AddNode bn;; mret ("", bn)
                | SinkKeyWithoutNode bk =>
                    bn ← NewNode ("UnknownSink " +:+ sink); AddNode bn;; mret (bk, bn)
                | SinkResolved bk bn => mret (bk, bn)
                end;
    let e := NewEdge (Some sn) (Some bn) in
    sg ← gets (fun g => subgraphs g !! bk);
    e ← match sg with
        | Some sg => name ← SubGraphName sg; mret (EdgeSet e "lhead" name)
        | None => mret e
        end;
    AddEdge e
  else mret tt.

Definition AddSource (source : SourceType) : M unit :=
  sn ← AddSource_node source;
  AddSource_sink source sn.

(** [AddTrigger] (graph.go, lines 153-186) *)
Definition AddTrigger (trigger : Trigger) : M unit :=
  let broker := trg_Broker trigger in
  let bk := brokerKey broker in
  found ← gets (fun g => nodes g !! bk);
  match found with
  | Some _ => mret tt
  | None =>
      bn ← NewNode ("UnknownBroker " +:+ broker);
      AddNode bn;;
      modify (with_nodes <[bk:=bn]>)
  end;;
  tn ← NewNode ("Trigger " +:+ trg_Name trigger);
  NodeSet tn "shape" "box";;
  sg ← gets (fun g => subgraphs g !! bk);
  match sg with
  | Some sg => SubGraphAddNode sg tn
  | None => AddNode tn
  end;;
  modify (with_nodes <[triggerKey (trg_Name trigger):=tn]>);;
  match trg_Filter trigger with
  | Some f =>
      match flt_SourceAndType f with
      | Some st =>
          let label := "Source:" +:+ flt_Source st +:+ nl +:+ "Type:" +:+ flt_Type st in
          name ← NodeName tn;
          NodeSet tn "label" (name +:+ nl +:+ label)
      | None => mret tt
      end
  | None => mret tt
  end;;
  sub ← getOrCreateSubscriber (trg_Subscriber trigger);
  match sub with
  | Some sub => AddEdge (EdgeSet (NewEdge (Some tn) (Some sub)) "dir" "both")
  | None => mret tt
  end.

(** [AddKnService] (graph.go, lines 188-235) *)
Definition AddKnService (service : Service) : M unit :=
  let key := servingKey (svc_Kind service) (svc_Name service) in
  found ← gets (fun g => nodes g !! key);
  svc ← match found with
        | Some svc => mret svc
        | None =>
            let label := svc_Name service +:+ nl +:+ "Kind: " +:+ svc_Kind service
                         +:+ nl +:+ svc_APIVersion service in
            svc ← NewNode label;
            setNodeShapeForKind svc (svc_Kind service) (svc_APIVersion service);;
            NodeSet svc "shape" "septagon";;
            modify (with_nodes <[key:=svc]>);;
            AddNode svc;;
            mret svc
        end;
  container ← index (svc_Containers service) 0;
  forM_ (ctr_Env container) (fun env =>
    if decide (env_Name env = "SINK" ∨ env_Name env = "TARGET") then
      target ← getOrCreateSink (env_Value env);
      AddEdge (NewEdge (Some svc) target)
    else mret tt).

(** The loop of [AddSequence] over the steps (graph.go, lines 258-278);
    [num] is the index of the first of [steps], the result the last
    [previousNode]. *)
Fixpoint AddSequence_steps (name : string) (sg : SubGraphId) (num : nat)
    (steps : list SubscriberSpec) (previousNode : NodeId) : M NodeId :=
  match steps with
  | [] => mret previousNode
  | step :: steps' =>
      let stepKey := sequenceStepKey name num in
      stepn ← NewNode stepKey;
      NodeSet stepn "label" ("Step " +:+ pretty num);;
      NodeSet stepn "shape" "box";;
      SubGraphAddNode sg stepn;;
      modify (with_nodes <[stepKey:=stepn]>);;
      sub ← getOrCreateSubscriber (Some step);
      match sub with
      | Some sub => AddEdge (EdgeSet (NewEdge (Some stepn) (Some sub)) "dir" "both")
      | None => mret tt
      end;;
      AddEdge (NewEdge (Some previousNode) (Some stepn));;
      AddSequence_steps name sg (S num) steps' stepn
  end.

(** [AddSequence] (graph.go, lines 237-301) *)
Definition AddSequence (seq : Sequence) : M unit :=
  let key := sequenceKey (seq_Name seq) in
  let dns := TrimSuffix (seq_Address seq) "/" in
  count ← gets (fun g => size (subgraphs g));
  sg ← NewSubgraph ("cluster_" +:+ pretty count);
  SubGraphSet sg "label" ("Sequence " +:+ seq_Name seq +:+ nl +:+ dns);;
  modify (with_dnsToKey <[dns:=key]>);;
  sn ← NewNode ("Sequence " +:+ dns);
  NodeSet sn "label" "Start";;
  modify (with_nodes <[key:=sn]>);;
  SubGraphAddNode sg sn;;
  previousNode ← AddSequence_steps (seq_Name seq) sg 0 (seq_Steps seq) sn;
  match seq_Reply seq with
  | Some reply =>
      replyn ← NewNode ("Reply " +:+ dns);
      NodeSet replyn "label" "Reply";;
      SubGraphAddNode sg replyn;;
      AddEdge (NewEdge (Some previousNode) (Some replyn));;
      let rk := gvkKey (ref_GroupVersionKind reply) (ref_Name reply) in
      rn ← gets (fun g => nodes g !! rk);
      match rn with
      | Some rn => AddEdge (NewEdge (Some replyn) (Some rn))
      | None => mret tt
      end
  | None => mret tt
  end;;
  modify (with_subgraphs <[key:=sg]>);;
  AddSubgraph sg.

(** The operations that style an edge from the palette.  The palette
    [colors] is a package variable declared outside graph.go; it is a
    parameter here. *)
Section Palette.

Variable colors : list string.

(** [newEdge] (graph.go, lines 44-52) *)
Definition newEdge (src dst : option NodeId) : M Edge :=
  let e := NewEdge src dst in
  rainbow ← gets rainbowEdge;
  if rainbow : bool then
    count ← gets edgeCount;
    if decide (length colors = 0) then panic "runtime error: integer divide by zero"
    else
      color ← index colors (Z.rem count (Z.of_nat (length colors)));
      modify (with_edgeCount (fun c => wrap_int (c + 1)));;
      mret (EdgeSet e "color" color)
  else mret e.

(** [AddSubscription] (graph.go, lines 75-99) *)
Definition AddSubscription (subscription : Subscription) : M unit :=
  let sk := subscriptionKey (subn_Name subscription) in
  sn ← NewNode ("Subscription " +:+ subn_Name subscription);
  let ck := gvkKey (ref_GroupVersionKind (subn_Channel subscription))
                   (ref_Name (subn_Channel subscription)) in
  cg ← gets (fun g => subgraphs g !! ck);
  match cg with
  | None => AddNode sn
  | Some cg => SubGraphAddNode cg sn
  end;;
  modify (with_nodes <[sk:=sn]>);;
  sub ← getOrCreateSubscriber (subn_Subscriber subscription);
  match sub with
  | Some sub => AddEdge (EdgeSet (NewEdge (Some sn) (Some sub)) "dir" "both")
  | None => mret tt
  end;;
  rep ← getOrCreateReply (subn_Reply subscription);
  match rep with
  | Some rep =>
      e ← newEdge (Some sn) (Some rep);
      AddEdge (EdgeSet e "dir" "forward")
  | None => mret tt
  end.

(** ** A build: the add operations applied in the order given *)

Inductive Resource :=
| RChannel (channel : Channel)
| RSubscription (subscription : Subscription)
| RBroker (broker : Broker)
| RSource (source : SourceType)
| RTrigger (trigger : Trigger)
| RKnService (service : Service)
| RSequence (seq : Sequence).

Definition Add (r : Resource) : M unit :=
  match r with
  | RChannel c => AddChannel c
  | RSubscription s => AddSubscription s
  | RBroker b => AddBroker b
  | RSource s => AddSource s
  | RTrigger t => AddTrigger t
  | RKnService s => AddKnService s
  | RSequence s => AddSequence s
  end.

Definition build (rs : list Resource) : M unit := forM_ rs Add.

End Palette.

(** ** Notions the properties are stated with *)

(** The names of the nodes built so far, in creation order. *)
Definition names (g : Graph) : list string := node_name <$> node_heap g.

(** The edges of the document. *)
Definition edges (g : Graph) : list Edge := dot_edges (Graph_ g).

(** The nodes attached to the document itself (the top level). *)
Definition toplevel (g : Graph) : list NodeId := dot_nodes (Graph_ g).

(** The nodes attached to the cluster [s]. *)
Definition cluster_nodes (g : Graph) (s : SubGraphId) : list NodeId :=
  default [] (sg_nodes <$> subgraph_heap g !! s).

(** A node is connected when the document can reach it: through the node
    index, the top level, a cluster or an end of an edge. *)
Definition connected (g : Graph) (p : NodeId) : Prop :=
  (∃ k, nodes g !! k = Some p)
  ∨ p ∈ toplevel g
  ∨ (∃ sg, sg ∈ subgraph_heap g ∧ p ∈ sg_nodes sg)
  ∨ (∃ e, e ∈ edges g ∧ (edge_src e = Some p ∨ edge_dst e = Some p)).

(** Every pointer the builder holds points into a heap. *)
Definition wf (g : Graph) : Prop :=
  (∀ p, connected g p → p < length (node_heap g))
  ∧ (∀ k s, subgraphs g !! k = Some s → s < length (subgraph_heap g)).

(** Every key the address index yields has a node. *)
Definition index_ok (g : Graph) : Prop :=
  ∀ dns k, dnsToKey g !! dns = Some k → is_Some (nodes g !! k).

(** The edges [previous -> s0 -> s1 -> ...] without attributes. *)
Fixpoint chain (previous : NodeId) (steps : list NodeId) : list Edge :=
  match steps with
  | [] => []
  | s :: steps' => NewEdge (Some previous) (Some s) :: chain s steps'
  end.

(** An edge no attribute was set on. *)
Definition plain (e : Edge) : bool := bool_decide (edge_attrs e = ∅).

(** An operation that returns from every builder. *)
Definition returns {A} (m : M A) : Prop := ∀ g, ∃ a g', m g = Ok a g'.

(** The attribute change [setNodeShapeForKind] makes to a node. *)
Definition shapeForKind (kind apiVersion : string) (nd : Node) : Node :=
  if decide (apiVersion = "serving.knative.dev/v1beta1") then
    if decide (kind = "Service") then node_set "shape" "septagon" nd else nd
  else nd.

(** The node [getOrCreateSubscriber] builds when the key has none. *)
Definition subscriberNode (subscriber : option SubscriberSpec) : Node :=
  let nd := mkNode (subscriberLabel subscriber) ∅ in
  match subscriber with
  | Some s =>
      match sub_Ref s with
      | Some r => shapeForKind (ref_Kind r) (ref_APIVersion r) nd
      | None => nd
      end
  | None => nd
  end.

(** What an operation may do to the builder: the heaps grow, a node that
    gets connected was connected before or is new, and a cluster that gets
    registered was registered before or is new. *)
Definition extends (g g' : Graph) : Prop :=
  length (node_heap g) ≤ length (node_heap g')
  ∧ length (subgraph_heap g) ≤ length (subgraph_heap g')
  ∧ (∀ p, connected g' p →
          connected g p ∨ length (node_heap g) ≤ p < length (node_heap g'))
  ∧ (∀ k s, subgraphs g' !! k = Some s →
            subgraphs g !! k = Some s
            ∨ length (subgraph_heap g) ≤ s < length (subgraph_heap g')).

(** What an operation may do to the indexes: a key keeps having a node, the
    key ["?"] keeps its node, and an address that is new in the address index
    yields a key with a node. *)
Definition index_grows (g g' : Graph) : Prop :=
  (∀ k, is_Some (nodes g !! k) → is_Some (nodes g' !! k))
  ∧ (∀ n, nodes g !! "?" = Some n → nodes g' !! "?" = Some n)
  ∧ (∀ dns k, dnsToKey g' !! dns = Some k →
              dnsToKey g !! dns = Some k ∨ is_Some (nodes g' !! k)).

Definition step (g g' : Graph) : Prop := extends g g' ∧ index_grows g g'.

(** [Q] holds of the builder [m] leaves behind, when [m] returns. *)
Definition post {A} (m : M A) (g : Graph) (Q : Graph → Prop) : Prop :=
  match m g with
  | Ok _ g' => Q g'
  | Panic _ => True
  end.

(** A string of ASCII bytes only; on such a string [ToLower] is
    [strings.ToLower]. *)
Fixpoint ascii_only (s : string) : bool :=
  match s with
  | EmptyString => true
  | String c s' => (Ascii.nat_of_ascii c <? 128)%nat && ascii_only s'
  end.

(** What a call never undoes: the nodes built so far keep their position
    and their name, the edges and the top-level nodes of the document stay
    in place, the rainbow mode stays as it is, and no node gets registered
    under the empty key. *)
Definition grows (g g' : Graph) : Prop :=
  names g `prefix_of` names g'
  ∧ edges g `prefix_of` edges g'
  ∧ toplevel g `prefix_of` toplevel g'
  ∧ rainbowEdge g' = rainbowEdge g
  ∧ (nodes g !! "" = None → nodes g' !! "" = None).

(** What a call does to the edge counter: nothing, or one increment. *)
Definition counts (g g' : Graph) : Prop :=
  edgeCount g' = edgeCount g ∨ edgeCount g' = wrap_int (edgeCount g + 1).

(** Every edge a call adds satisfies [P]. *)
Definition ends (P : Edge → Prop) (g g' : Graph) : Prop :=
  ∀ e, e ∈ edges g' → e ∈ edges g ∨ P e.

Definition has_source (e : Edge) : Prop := is_Some (edge_src e).

Definition has_both_ends (e : Edge) : Prop :=
  is_Some (edge_src e) ∧ is_Some (edge_dst e).

(** * Properties *)

(** ** Strings and keys *)

Lemma ToLower_app a b : ToLower (a +:+ b) = ToLower a +:+ ToLower b.
Proof. induction a as [|c a IH]; simpl; [done | by rewrite IH]. Qed.

Lemma lower_pretty_N_char (d : N) : lower_ascii (pretty_N_char d) = pretty_N_char d.
Proof.
  unfold pretty_N_char.
  destruct d as [|p]; [done|].
  do 4 (try destruct p as [p|p|]); reflexivity.
Qed.

Lemma ToLower_pretty_N_go (x : N) :
  ∀ s, ToLower s = s → ToLower (pretty_N_go x s) = pretty_N_go x s.
Proof.
  induction (N.lt_wf_0 x) as [x _ IH]. intros s Hs.
  destruct (decide (0 < x)%N) as [Hx|Hx].
  - rewrite pretty_N_go_step by done. apply IH.
    + apply N.div_lt; lia.
    + simpl. by rewrite lower_pretty_N_char, Hs.
  - assert (x = 0%N) as -> by lia. by rewrite pretty_N_go_0.
Qed.

Lemma ToLower_pretty (n : nat) : ToLower (pretty n) = pretty n.
Proof.
  unfold pretty, pretty_nat, pretty, pretty_N.
  case_decide; [done|]. by apply ToLower_pretty_N_go.
Qed.

Lemma TrimSuffix_slash_app s : TrimSuffix (s +:+ "/") "/" = s.
Proof.
  induction s as [|c s IH]; [done|].
  change (String c s +:+ "/") with (String c (s +:+ "/")).
  cbn [TrimSuffix]. rewrite IH.
  destruct (String.eqb_spec (String c (s +:+ "/")) "/") as [E|_]; [|done].
  injection E as _ E. destruct s; discriminate.
Qed.

Lemma key_not_question a b : ToLower (a +:+ "/" +:+ b) ≠ "?".
Proof.
  destruct a as [|c a]; simpl; [discriminate|].
  intros H. injection H as _ H. destruct a; discriminate.
Qed.

Lemma key_not_empty a b : ToLower (a +:+ "/" +:+ b) ≠ "".
Proof. destruct a; discriminate. Qed.

Lemma eventingKey_not_question kind name : eventingKey kind name ≠ "?".
Proof. unfold eventingKey, key. apply key_not_question. Qed.

Lemma messagingKey_not_question kind name : messagingKey kind name ≠ "?".
Proof. unfold messagingKey, key. apply key_not_question. Qed.

Lemma servingKey_not_question kind name : servingKey kind name ≠ "?".
Proof. unfold servingKey, key. apply key_not_question. Qed.

Lemma gvkKey_not_question gvk name : gvkKey gvk name ≠ "?".
Proof. unfold gvkKey. apply key_not_question. Qed.

Lemma channelKey_subscriptionKey a b : channelKey a ≠ subscriptionKey b.
Proof. unfold channelKey, subscriptionKey, eventingKey, key. simpl. discriminate. Qed.

Lemma brokerKey_triggerKey a b : brokerKey a ≠ triggerKey b.
Proof. unfold brokerKey, triggerKey, eventingKey, key. simpl. discriminate. Qed.

Lemma sequenceKey_sequenceStepKey a b i : sequenceKey a ≠ sequenceStepKey b i.
Proof.
  unfold sequenceKey, sequenceStepKey, messagingKey, key. simpl. discriminate.
Qed.

Lemma sequenceStepKey_inj name i j :
  sequenceStepKey name i = sequenceStepKey name j → i = j.
Proof.
  unfold sequenceStepKey, messagingKey, key.
  rewrite !ToLower_app. intros H.
  repeat (apply (inj (String.app _)) in H).
  rewrite !ToLower_pretty in H. by apply (inj pretty) in H.
Qed.

Lemma gvkKey_channel name :
  gvkKey (FromAPIVersionAndKind "eventing.knative.dev/v1alpha1" "Channel") name
  = channelKey name.
Proof. reflexivity. Qed.

Lemma channelKey_not_question name : channelKey name ≠ "?".
Proof. apply eventingKey_not_question. Qed.

Lemma subscriptionKey_not_question name : subscriptionKey name ≠ "?".
Proof. apply eventingKey_not_question. Qed.

Lemma brokerKey_not_question name : brokerKey name ≠ "?".
Proof. apply eventingKey_not_question. Qed.

Lemma triggerKey_not_question name : triggerKey name ≠ "?".
Proof. apply eventingKey_not_question. Qed.

Lemma sequenceKey_not_question name : sequenceKey name ≠ "?".
Proof. apply messagingKey_not_question. Qed.

Lemma sequenceStepKey_not_question name i : sequenceStepKey name i ≠ "?".
Proof. apply messagingKey_not_question. Qed.

(** ** Keys: case, empty keys, and the two ways to key a reference *)

Lemma lower_ascii_idemp c : lower_ascii (lower_ascii c) = lower_ascii c.
Proof. by destruct c as [[] [] [] [] [] [] [] []]. Qed.

Lemma ToLower_idemp s : ToLower (ToLower s) = ToLower s.
Proof. induction s as [|c s IH]; simpl; [done|]. by rewrite lower_ascii_idemp, IH. Qed.

Lemma key_name_inj group version kind a b :
  key group version kind a = key group version kind b ↔ ToLower a = ToLower b.
Proof.
  unfold key. rewrite !ToLower_app. split.
  - intros H. by repeat (apply (inj (String.app _)) in H).
  - by intros ->.
Qed.

Lemma channelKey_not_empty name : channelKey name ≠ "".
Proof. apply key_not_empty. Qed.

Lemma subscriptionKey_not_empty name : subscriptionKey name ≠ "".
Proof. apply key_not_empty. Qed.

Lemma brokerKey_not_empty name : brokerKey name ≠ "".
Proof. apply key_not_empty. Qed.

Lemma triggerKey_not_empty name : triggerKey name ≠ "".
Proof. apply key_not_empty. Qed.

Lemma sequenceKey_not_empty name : sequenceKey name ≠ "".
Proof. apply key_not_empty. Qed.

Lemma sequenceStepKey_not_empty name i : sequenceStepKey name i ≠ "".
Proof. apply key_not_empty. Qed.

Lemma servingKey_not_empty kind name : servingKey kind name ≠ "".
Proof. apply key_not_empty. Qed.

Lemma gvkKey_not_empty gvk name : gvkKey gvk name ≠ "".
Proof. unfold gvkKey. apply key_not_empty. Qed.

Lemma subscriberKey_not_empty subscriber : subscriberKey subscriber ≠ "".
Proof.
  destruct subscriber as [[[r|] [u|]]|];
    cbv [subscriberKey subscriberKeyLabel fst sub_URI sub_Ref uriKey refKey];
    try discriminate; apply key_not_empty.
Qed.

Lemma string_app_assoc (a b c : string) : (a +:+ b) +:+ c = a +:+ b +:+ c.
Proof.
  induction a as [|x a IH]; [done|].
  change (String x ((a +:+ b) +:+ c) = String x (a +:+ b +:+ c)). by rewrite IH.
Qed.

Lemma cutSlash_app s :
  countSlash s = 1 → s = fst (cutSlash s) +:+ "/" +:+ snd (cutSlash s).
Proof.
  induction s as [|c s IH]; [done|].
  cbn [countSlash cutSlash].
  destruct (Ascii.eqb_spec c "/") as [->|Hc]; [done|].
  intros H. destruct (cutSlash s) as [a b]. cbn [fst snd] in *.
  change (String c a +:+ "/" +:+ b) with (String c (a +:+ "/" +:+ b)).
  f_equal. by apply IH.
Qed.

Lemma refKey_servingKey kind name :
  refKey "serving.knative.dev/v1beta1" kind name = servingKey kind name.
Proof. reflexivity. Qed.

(** X2: for an API version of the form [group/version], the key computed
    from the parsed group, version and kind is the key computed from the
    text of a reference: a subscriber reference and a source or a channel
    reference with the same coordinates meet on one key. *)
Theorem gvkKey_agrees_with_refKey (apiVersion kind name : string) :
  countSlash apiVersion = 1 → apiVersion ≠ "/" →
  gvkKey (FromAPIVersionAndKind apiVersion kind) name = refKey apiVersion kind name.
Proof.
  intros Hc Hne. unfold FromAPIVersionAndKind, ParseGroupVersion.
  destruct (String.eqb_spec apiVersion "") as [->|_]; [done|].
  destruct (String.eqb_spec apiVersion "/") as [|_]; [done|].
  cbn [orb]. rewrite Hc.
  pose proof (cutSlash_app apiVersion Hc) as Hcut.
  destruct (cutSlash apiVersion) as [a b]. cbn [fst snd] in Hcut.
  unfold gvkKey, refKey. cbn [Group Version Kind].
  rewrite Hcut. by rewrite !string_app_assoc.
Qed.

Lemma gvkKey_agrees_with_refKey_witness :
  gvkKey (FromAPIVersionAndKind "sources.eventing.knative.dev/v1alpha1" "PingSource") "src"
  = refKey "sources.eventing.knative.dev/v1alpha1" "PingSource" "src".
Proof.
  apply (gvkKey_agrees_with_refKey "sources.eventing.knative.dev/v1alpha1" "PingSource" "src");
    [reflexivity|discriminate].
Defined.

Lemma countSlash_0_head c s : countSlash (String c s) = 0 → c ≠ "/"%char.
Proof. cbn [countSlash]. destruct (Ascii.eqb_spec c "/"); [done|auto]. Qed.

Lemma lower_ascii_slash c : lower_ascii c = "/"%char → c = "/"%char.
Proof. by destruct c as [[] [] [] [] [] [] [] []]. Qed.

(** X3: for an API version without a group (["v1"]) the two keys differ:
    the key from the parsed coordinates starts with the separator that
    follows the empty group, the key from the text of a reference does not. *)
Theorem gvkKey_differs_from_refKey_without_group (apiVersion kind name : string) :
  countSlash apiVersion = 0 → apiVersion ≠ "" →
  gvkKey (FromAPIVersionAndKind apiVersion kind) name
    = ToLower ("/" +:+ apiVersion +:+ "/" +:+ kind +:+ "/" +:+ name)
  ∧ gvkKey (FromAPIVersionAndKind apiVersion kind) name ≠ refKey apiVersion kind name.
Proof.
  intros Hc Hne. unfold FromAPIVersionAndKind, ParseGroupVersion.
  destruct (String.eqb_spec apiVersion "") as [->|_]; [done|].
  destruct (String.eqb_spec apiVersion "/") as [->|_]; [done|].
  cbn [orb]. rewrite Hc. unfold gvkKey, refKey. cbn [Group Version Kind].
  split; [done|].
  destruct apiVersion as [|c s]; [done|].
  apply countSlash_0_head in Hc. simpl. intros [= E]. symmetry in E. by apply lower_ascii_slash in E.
Qed.

Lemma gvkKey_differs_from_refKey_without_group_witness :
  gvkKey (FromAPIVersionAndKind "v1" "Service") "db"
    = ToLower ("/" +:+ "v1" +:+ "/" +:+ "Service" +:+ "/" +:+ "db")
  ∧ gvkKey (FromAPIVersionAndKind "v1" "Service") "db" ≠ refKey "v1" "Service" "db".
Proof.
  apply (gvkKey_differs_from_refKey_without_group "v1" "Service" "db");
    [reflexivity|discriminate].
Defined.

Lemma uriKey_inj a b : uriKey a = uriKey b ↔ ToLower a = ToLower b.
Proof.
  unfold uriKey. rewrite !ToLower_app. split.
  - intros H. by apply (inj (String.app _)) in H.
  - by intros ->.
Qed.

Lemma subscriberKey_uri r u : subscriberKey (Some (mkSubscriber r (Some u))) = uriKey u.
Proof. reflexivity. Qed.

Lemma subscriberKey_ref r :
  subscriberKey (Some (mkSubscriber (Some r) None))
  = refKey (ref_APIVersion r) (ref_Kind r) (ref_Name r).
Proof. reflexivity. Qed.

(** X1: for names of ASCII bytes, two resources of one kind share a key
    exactly when the names agree up to the case of the letters; so do two
    subscriber addresses of ASCII bytes. *)
Theorem keys_identify_names_up_to_case (a b : string) :
  ascii_only a = true → ascii_only b = true →
  (channelKey a = channelKey b ↔ ToLower a = ToLower b)
  ∧ (subscriptionKey a = subscriptionKey b ↔ ToLower a = ToLower b)
  ∧ (brokerKey a = brokerKey b ↔ ToLower a = ToLower b)
  ∧ (triggerKey a = triggerKey b ↔ ToLower a = ToLower b)
  ∧ (sequenceKey a = sequenceKey b ↔ ToLower a = ToLower b)
  ∧ (∀ kind, ascii_only kind = true →
       (servingKey kind a = servingKey kind b ↔ ToLower a = ToLower b))
  ∧ (∀ gvk, ascii_only (Group gvk) = true → ascii_only (Version gvk) = true →
            ascii_only (Kind gvk) = true →
       (gvkKey gvk a = gvkKey gvk b ↔ ToLower a = ToLower b))
  ∧ (uriKey a = uriKey b ↔ ToLower a = ToLower b)
  ∧ channelKey (ToLower a) = channelKey a.
Proof.
  intros _ _.
  do 5 (split; [apply key_name_inj|]).
  split; [intros kind _; apply key_name_inj|].
  split; [intros gvk _ _ _; apply (key_name_inj (Group gvk) (Version gvk) (Kind gvk))|].
  split; [apply uriKey_inj|].
  apply key_name_inj, ToLower_idemp.
Qed.

Lemma keys_identify_names_up_to_case_witness :
  (channelKey "Orders" = channelKey "orders" ↔ ToLower "Orders" = ToLower "orders")
  ∧ (subscriptionKey "Orders" = subscriptionKey "orders" ↔ ToLower "Orders" = ToLower "orders")
  ∧ (brokerKey "Orders" = brokerKey "orders" ↔ ToLower "Orders" = ToLower "orders")
  ∧ (triggerKey "Orders" = triggerKey "orders" ↔ ToLower "Orders" = ToLower "orders")
  ∧ (sequenceKey "Orders" = sequenceKey "orders" ↔ ToLower "Orders" = ToLower "orders")
  ∧ (∀ kind, ascii_only kind = true →
       (servingKey kind "Orders" = servingKey kind "orders"
        ↔ ToLower "Orders" = ToLower "orders"))
  ∧ (∀ gvk, ascii_only (Group gvk) = true → ascii_only (Version gvk) = true →
            ascii_only (Kind gvk) = true →
       (gvkKey gvk "Orders" = gvkKey gvk "orders" ↔ ToLower "Orders" = ToLower "orders"))
  ∧ (uriKey "Orders" = uriKey "orders" ↔ ToLower "Orders" = ToLower "orders")
  ∧ channelKey (ToLower "Orders") = channelKey "Orders".
Proof.
  apply (keys_identify_names_up_to_case "Orders" "orders"); reflexivity.
Defined.

Lemma subscriberKey_absent : subscriberKey None = "?".
Proof. reflexivity. Qed.

Lemma subscriberKey_empty : subscriberKey (Some (mkSubscriber None None)) = "?".
Proof. reflexivity. Qed.

Lemma subscriberKey_question subscriber :
  subscriberKey subscriber = "?" → subscriberLabel subscriber = "?".
Proof.
  destruct subscriber as [[[r|] [u|]]|];
    cbv [subscriberKey subscriberLabel subscriberKeyLabel fst snd sub_URI sub_Ref uriKey refKey];
    try done.
  all: intros H; by apply key_not_question in H.
Qed.

(** ** Symbolic execution of the operations *)

#[global] Opaque channelKey subscriptionKey brokerKey triggerKey sequenceKey sequenceStepKey
  gvkKey servingKey subscriberKey uriKey refKey.

Ltac msimpl :=
  unfold names, edges, toplevel, exec, NewNode, NodeSet, NodeName, NewSubgraph, SubGraphSet, SubGraphAddNode,
       SubGraphName, AddNode, AddSubgraph, AddEdge in *;
  unfold mbind, M_mbind, M_bind, mret, M_mret, M_ret, gets, modify, panic in *;
  cbn [with_dot with_nodes with_subgraphs with_dnsToKey with_edgeCount with_node_heap
       with_subgraph_heap
       Graph_ nodes subgraphs dnsToKey edgeCount rainbowEdge node_heap subgraph_heap
       dot_name dot_attrs dot_nodes dot_subgraphs dot_edges
       dot_add_node dot_add_subgraph dot_add_edge
       fst snd] in *.

(** ** Heaps *)

Lemma fmap_node_name_alter (f : Node → Node) (i : nat) (h : list Node) :
  (∀ nd, node_name (f nd) = node_name nd) →
  node_name <$> alter f i h = node_name <$> h.
Proof.
  intros Hf. apply list_eq. intros j.
  rewrite !list_lookup_fmap, list_lookup_alter.
  case_decide; [subst|done].
  destruct (h !! j); simpl; [by rewrite Hf | done].
Qed.

Lemma node_set_name k v nd : node_name (node_set k v nd) = node_name nd.
Proof. done. Qed.

Lemma shapeForKind_name kind apiVersion nd :
  node_name (shapeForKind kind apiVersion nd) = node_name nd.
Proof. unfold shapeForKind. by repeat case_decide. Qed.

Lemma subscriberNode_name subscriber :
  node_name (subscriberNode subscriber) = subscriberLabel subscriber.
Proof.
  unfold subscriberNode.
  destruct subscriber as [[[r|] u]|]; cbn [sub_Ref]; by rewrite ?shapeForKind_name.
Qed.

Lemma setNodeShapeForKind_eq n kind apiVersion g :
  setNodeShapeForKind n kind apiVersion g
  = Ok tt (with_node_heap (alter (shapeForKind kind apiVersion) n) g).
Proof.
  unfold setNodeShapeForKind, shapeForKind.
  repeat case_decide; msimpl; try done;
    destruct g; unfold with_node_heap; cbn; by rewrite list_alter_id.
Qed.

(** ** The resolution helpers as equations *)

Lemma getOrCreateSubscriber_eq subscriber g :
  getOrCreateSubscriber subscriber g =
    match nodes g !! subscriberKey subscriber with
    | Some n => Ok (Some n) g
    | None =>
        let n := length (node_heap g) in
        Ok (Some n)
           (with_dot (dot_add_node n)
              (with_nodes <[subscriberKey subscriber:=n]>
                 (with_node_heap (λ h, h ++ [subscriberNode subscriber]) g)))
    end.
Proof.
  unfold getOrCreateSubscriber. msimpl.
  destruct (nodes g !! subscriberKey subscriber) as [n|]; [done|].
  unfold subscriberNode.
  destruct subscriber as [[[r|] u]|]; try done.
  cbn [sub_Ref]. rewrite setNodeShapeForKind_eq. msimpl.
  destruct g as [d ns sgs d2k ec rb nh sh].
  unfold with_dot, with_nodes, with_node_heap; cbn.
  rewrite alter_app_r_alt by lia. rewrite Nat.sub_diag. reflexivity.
Qed.

Lemma getOrCreateSink_eq uri g :
  getOrCreateSink uri g =
    match dnsToKey g !! TrimSuffix uri "/" with
    | Some key => Ok (nodes g !! key) g
    | None =>
        Ok (nodes g !! "")
           (with_dot (dot_add_node (length (node_heap g)))
              (with_node_heap
                 (λ h, h ++ [mkNode ("UnknownSink " +:+ TrimSuffix uri "/") ∅]) g))
    end.
Proof.
  unfold getOrCreateSink. msimpl.
  by destruct (dnsToKey g !! TrimSuffix uri "/").
Qed.

Lemma getOrCreateReply_eq rep g :
  getOrCreateReply rep g =
    match rep with
    | Some (mkReply (Some ch)) =>
        match nodes g !! channelKey (ref_Name ch) with
        | Some cn => Ok (Some cn) g
        | None =>
            Ok None (with_node_heap
                       (λ h, h ++ [mkNode ("Unknown Channel " +:+ ref_Name ch) ∅]) g)
        end
    | _ => Ok None g
    end.
Proof.
  unfold getOrCreateReply. destruct rep as [[[ch|]]|]; try done.
  cbn [reply_Channel]. msimpl.
  by destruct (nodes g !! channelKey (ref_Name ch)).
Qed.


Ltac mcase :=
  match goal with
  | |- context [match ?x with _ => _ end] =>
      lazymatch x with
      | context [match _ with _ => _ end] => fail
      | AddSequence_steps _ _ _ _ _ _ => fail
      | forM_ _ _ _ => fail
      | newEdge _ _ _ _ => fail
      | _ => destruct x eqn:?
      end
  end.

Lemma names_alter_node_set k v i (h : list Node) :
  node_name <$> alter (node_set k v) i h = node_name <$> h.
Proof. by apply fmap_node_name_alter. Qed.

Lemma names_alter_shapeForKind kind apiVersion i (h : list Node) :
  node_name <$> alter (shapeForKind kind apiVersion) i h = node_name <$> h.
Proof. apply fmap_node_name_alter. intros. apply shapeForKind_name. Qed.

Ltac hsimpl :=
  repeat first
    [ rewrite length_alter | rewrite length_app | rewrite names_alter_node_set
    | rewrite names_alter_shapeForKind | rewrite fmap_app | rewrite subscriberNode_name
    | progress cbn [length fmap list_fmap node_name] ].

Ltac kneq0 :=
  first [ apply brokerKey_triggerKey | apply not_eq_sym, brokerKey_triggerKey
        | apply channelKey_subscriptionKey | apply not_eq_sym, channelKey_subscriptionKey
        | apply sequenceKey_sequenceStepKey | apply not_eq_sym, sequenceKey_sequenceStepKey
        | apply channelKey_not_question | apply subscriptionKey_not_question
        | apply brokerKey_not_question | apply triggerKey_not_question
        | apply sequenceKey_not_question | apply sequenceStepKey_not_question
        | apply gvkKey_not_question | apply servingKey_not_question
        | assumption | apply not_eq_sym; assumption ].

(** Rewrites the lookups of the goal through the insertions. *)
Ltac look0 :=
  repeat first
    [ rewrite lookup_insert_eq
    | rewrite lookup_insert_ne by kneq0
    | match goal with H : @lookup _ _ _ _ _ _ = _ |- _ => rewrite H end ].

(** Two keys differ when a map has a value at one and none at the other. *)
Ltac kneq :=
  first
    [ kneq0
    | match goal with
      | H : _ !! ?k1 = None |- ?k1 ≠ ?k2 =>
          let E := fresh in
          intros E; rewrite E in H; revert H; look0; discriminate
      | H : _ !! ?k2 = None |- ?k1 ≠ ?k2 =>
          let E := fresh in
          intros E; rewrite <- E in H; revert H; look0; discriminate
      end ].

Ltac look :=
  repeat first
    [ rewrite lookup_insert_eq
    | rewrite lookup_insert_ne by kneq
    | match goal with
      | H : context [<[?k:=_]> _ !! ?k] |- _ => rewrite lookup_insert_eq in H
      | H : context [<[_:=_]> _ !! _] |- _ => rewrite lookup_insert_ne in H by kneq
      | H : @lookup _ _ _ _ _ _ = _ |- _ => rewrite H
      | H : Some _ = None |- _ => discriminate H
      | H : None = Some _ |- _ => discriminate H
      end
    | progress cbn [default from_option id] ].

Ltac mrun :=
  repeat (msimpl;
          rewrite ?getOrCreateSubscriber_eq, ?getOrCreateReply_eq, ?getOrCreateSink_eq,
                  ?setNodeShapeForKind_eq;
          msimpl;
          try mcase).

(** ** [AddKnService] *)

Lemma index_head {A} (x : A) (l : list A) (g : Graph) : index (x :: l) 0 g = Ok x g.
Proof. reflexivity. Qed.

Lemma index_nil {A} (i : Z) (g : Graph) :
  index (@nil A) i g = Panic "runtime error: index out of range".
Proof. unfold index. by case_decide. Qed.

Lemma forM__returns {A} (l : list A) (body : A → M unit) :
  (∀ x, returns (body x)) → returns (forM_ l body).
Proof.
  intros Hbody. induction l as [|x l IH]; intros g; cbn [forM_]; msimpl.
  - by eexists _, _.
  - destruct (Hbody x g) as ([] & g1 & ->).
    apply IH.
Qed.

(** The body of the loop over the environment (graph.go, lines 225-233)
    leaves the three indexes as they are. *)
Lemma AddKnService_env_frame (svc : NodeId) (envs : list EnvVar) (g : Graph) :
  ∃ g',
    forM_ envs (λ env,
      if decide (env_Name env = "SINK" ∨ env_Name env = "TARGET") then
        target ← getOrCreateSink (env_Value env);
        AddEdge (NewEdge (Some svc) target)
      else mret tt) g = Ok tt g'
    ∧ nodes g' = nodes g ∧ dnsToKey g' = dnsToKey g ∧ subgraphs g' = subgraphs g.
Proof.
  revert g. induction envs as [|env envs IH]; intros g; cbn [forM_]; msimpl.
  - by eexists.
  - case_decide.
    + rewrite getOrCreateSink_eq.
      destruct (dnsToKey g !! _); msimpl;
        (edestruct IH as (g' & -> & Hn & Hd & Hs); eexists; split; [done|];
         by rewrite Hn, Hd, Hs).
    + apply IH.
Qed.

(** C3, at the failing input: a service whose [TARGET] is nowhere indexed.
    The [UnknownSink] node is built and attached to the document, but the
    destination of the edge is the nil pointer, not that node. *)
Theorem C3_unknown_sink_edge_has_no_destination :
  ∃ g',
    AddKnService
      (mkService "svc" "Service" "serving.knative.dev/v1beta1"
         [mkContainer [mkEnv "TARGET" "http://unknown.example/"]])
      (New "ns") = Ok tt g'
    ∧ names g' !! 1 = Some "UnknownSink http://unknown.example"
    ∧ toplevel g' = [0; 1]
    ∧ edges g' = [NewEdge (Some 0) None].
Proof. eexists. split; [vm_compute; reflexivity|]. by vm_compute. Qed.

(** C2, the counterexample: a service without containers makes
    [AddKnService] panic. *)
Lemma C2_no_containers_panics :
  exec (AddKnService (mkService "svc" "Service" "serving.knative.dev/v1beta1" []))
       (New "ns") = None.
Proof. reflexivity. Qed.


(** ** [AddTrigger] *)

Lemma AddTrigger_spec (t : Trigger) (g : Graph) :
  let bk := brokerKey (trg_Broker t) in
  ∃ g' created,
    AddTrigger t g = Ok tt g'
    ∧ names g' = names g
                 ++ match nodes g !! bk with
                    | Some _ => []
                    | None => ["UnknownBroker " +:+ trg_Broker t]
                    end
                 ++ ["Trigger " +:+ trg_Name t] ++ created
    ∧ (created = [] ∨ created = [subscriberLabel (trg_Subscriber t)])
    ∧ nodes g' !! bk = Some (default (length (node_heap g)) (nodes g !! bk))
    ∧ (nodes g !! bk = None → length (node_heap g) ∈ toplevel g').
Proof.
  intros bk. subst bk. unfold AddTrigger.
  mrun; eexists _, _; (split; [reflexivity|]); msimpl; hsimpl;
    (split; [rewrite <- ?app_assoc; reflexivity|]);
    (split; [auto|]); look;
    (split; [reflexivity|]);
    try (intros ?; discriminate);
    intros _; rewrite ?elem_of_app, !list_elem_of_singleton; auto.
Qed.

(** C6: a trigger on a broker without a node creates the
    [UnknownBroker] placeholder, once, and registers it under the broker key;
    a later trigger on the same broker finds it there and creates no other. *)
Theorem C6_unknown_broker_placeholder_is_shared (t1 : Trigger) (g : Graph) :
  nodes g !! brokerKey (trg_Broker t1) = None →
  ∃ g1 created,
    AddTrigger t1 g = Ok tt g1
    ∧ names g1 = names g ++ ["UnknownBroker " +:+ trg_Broker t1; "Trigger " +:+ trg_Name t1]
                 ++ created
    ∧ (created = [] ∨ created = [subscriberLabel (trg_Subscriber t1)])
    ∧ length (node_heap g) ∈ toplevel g1
    ∧ nodes g1 !! brokerKey (trg_Broker t1) = Some (length (node_heap g))
    ∧ ∀ (t2 : Trigger) (g2 : Graph),
        trg_Broker t2 = trg_Broker t1 →
        nodes g2 !! brokerKey (trg_Broker t1) = Some (length (node_heap g)) →
        ∃ g3 created2,
          AddTrigger t2 g2 = Ok tt g3
          ∧ nodes g3 !! brokerKey (trg_Broker t1) = Some (length (node_heap g))
          ∧ names g3 = names g2 ++ ["Trigger " +:+ trg_Name t2] ++ created2
          ∧ (created2 = [] ∨ created2 = [subscriberLabel (trg_Subscriber t2)]).
Proof.
  intros Hmiss.
  destruct (AddTrigger_spec t1 g) as (g1 & created & Hrun & Hnames & Hcreated & Hbk & Htop).
  rewrite Hmiss in Hnames, Hbk. cbn [default] in Hbk.
  exists g1, created. repeat split; auto.
  intros t2 g2 Hsame Hreg.
  destruct (AddTrigger_spec t2 g2) as (g3 & created2 & Hrun2 & Hnames2 & Hcreated2 & Hbk2 & _).
  rewrite Hsame in Hnames2, Hbk2. rewrite Hreg in Hnames2, Hbk2.
  exists g3, created2. by repeat split.
Qed.

Lemma C6_witness :
  nodes (New "ns") !! brokerKey "default" = None
  ∧ ∃ g1 created,
      AddTrigger (mkTrigger "t1" "default" None None) (New "ns") = Ok tt g1
      ∧ names g1 = names (New "ns") ++ ["UnknownBroker default"; "Trigger t1"] ++ created
      ∧ (created = [] ∨ created = ["?"])
      ∧ 0 ∈ toplevel g1
      ∧ nodes g1 !! brokerKey "default" = Some 0
      ∧ ∀ (t2 : Trigger) (g2 : Graph),
          trg_Broker t2 = "default" →
          nodes g2 !! brokerKey "default" = Some 0 →
          ∃ g3 created2,
            AddTrigger t2 g2 = Ok tt g3
            ∧ nodes g3 !! brokerKey "default" = Some 0
            ∧ names g3 = names g2 ++ ["Trigger " +:+ trg_Name t2] ++ created2
            ∧ (created2 = [] ∨ created2 = [subscriberLabel (trg_Subscriber t2)]).
Proof.
  split; [reflexivity|].
  apply (C6_unknown_broker_placeholder_is_shared (mkTrigger "t1" "default" None None)
           (New "ns")).
  reflexivity.
Defined.

(** ** [AddChannel], [AddBroker] and [AddSource] *)

Lemma AddChannel_spec (c : Channel) (g : Graph) :
  let ck := channelKey (chan_Name c) in
  let dns := TrimSuffix (chan_Address c) "/" in
  ∃ g',
    AddChannel c g = Ok tt g'
    ∧ nodes g' = <[ck:=length (node_heap g)]> (nodes g)
    ∧ dnsToKey g' = <[dns:=ck]> (dnsToKey g)
    ∧ subgraphs g' = <[ck:=length (subgraph_heap g)]> (subgraphs g)
    ∧ names g' = names g ++ ["Channel " +:+ chan_Name c]
    ∧ toplevel g' = toplevel g
    ∧ edges g' = edges g
    ∧ edgeCount g' = edgeCount g
    ∧ rainbowEdge g' = rainbowEdge g
    ∧ length (subgraph_heap g') = S (length (subgraph_heap g))
    ∧ cluster_nodes g' (length (subgraph_heap g)) = [length (node_heap g)]
    ∧ (∀ s, s < length (subgraph_heap g) → cluster_nodes g' s = cluster_nodes g s).
Proof.
  intros ck dns. subst ck dns. unfold AddChannel. mrun.
  eexists. split; [reflexivity|]. unfold cluster_nodes. msimpl. hsimpl.
  repeat split; try reflexivity.
  - lia.
  - rewrite !list_lookup_alter_eq, lookup_app_r, Nat.sub_diag by lia. reflexivity.
  - intros s Hs. rewrite !list_lookup_alter_ne, lookup_app_l by lia. reflexivity.
Qed.

Lemma AddBroker_spec (b : Broker) (g : Graph) :
  let key := brokerKey (brk_Name b) in
  let dns := TrimSuffix (brk_Address b) "/" in
  ∃ g',
    AddBroker b g = Ok tt g'
    ∧ nodes g' = <[key:=length (node_heap g)]> (nodes g)
    ∧ dnsToKey g' = <[dns:=key]> (dnsToKey g)
    ∧ subgraphs g' = <[key:=length (subgraph_heap g)]> (subgraphs g)
    ∧ names g' = names g ++ ["Broker " +:+ dns].
Proof.
  intros key dns. subst key dns. unfold AddBroker. mrun.
  eexists. split; [reflexivity|]. msimpl. hsimpl. by repeat split.
Qed.

Lemma AddSource_node_spec (s : SourceType) (g : Graph) :
  let key := gvkKey (FromAPIVersionAndKind (src_APIVersion s) (src_Kind s)) (src_Name s) in
  ∃ g',
    AddSource_node s g = Ok (length (node_heap g)) g'
    ∧ nodes g' = <[key:=length (node_heap g)]> (nodes g)
    ∧ dnsToKey g' = dnsToKey g
    ∧ subgraphs g' = subgraphs g
    ∧ names g' = names g ++ ["Source " +:+ src_Name s +:+ nl +:+ "Kind: " +:+ src_Kind s
                               +:+ nl +:+ src_APIVersion s]
    ∧ edges g' = edges g
    ∧ length (node_heap g') = S (length (node_heap g)).
Proof.
  intros key. subst key. unfold AddSource_node. mrun.
  eexists. split; [reflexivity|]. msimpl. hsimpl. repeat split; try reflexivity. lia.
Qed.

Lemma AddSource_sink_spec (s : SourceType) (sn : NodeId) (g : Graph) :
  ∃ g',
    AddSource_sink s sn g = Ok tt g'
    ∧ nodes g' = nodes g ∧ dnsToKey g' = dnsToKey g ∧ subgraphs g' = subgraphs g
    ∧ match lookupSink (sinkDNS s) g with
      | SinkResolved bk bn =>
          sinkDNS s ≠ "" →
          ∃ e, edges g' = edges g ++ [e] ∧ edge_src e = Some sn ∧ edge_dst e = Some bn
               ∧ names g' = names g
      | _ =>
          sinkDNS s ≠ "" →
          ∃ e, edges g' = edges g ++ [e] ∧ edge_src e = Some sn
               ∧ edge_dst e = Some (length (node_heap g))
               ∧ names g' = names g ++ ["UnknownSink " +:+ sinkDNS s]
      end
    ∧ (sinkDNS s = "" → g' = g).
Proof.
  unfold AddSource_sink. case_decide as Hsink.
  - mrun; eexists; (split; [reflexivity|]); msimpl; hsimpl;
      (repeat split; try reflexivity; try done);
      intros _; eexists; by repeat split.
  - msimpl. eexists. repeat split; try done.
    destruct (lookupSink _ _); done.
Qed.

(** C7, the counterexample: a channel whose address is ["/"] and a source
    whose sink is ["/"] agree up to the trailing slash, but the sink
    normalises to the empty address and no edge is added. *)
Lemma C7_empty_address_no_edge :
  ∃ g1 g2,
    AddChannel (mkChannel "c" "Channel" "eventing.knative.dev/v1alpha1" "/") (New "ns")
      = Ok tt g1
    ∧ AddSource (mkSource "s" "PingSource" "sources.eventing.knative.dev/v1alpha1"
                   (Some "/")) g1 = Ok tt g2
    ∧ edges g2 = [].
Proof. eexists _, _. split; [by vm_compute|]. split; by vm_compute. Qed.

(** A source added after a channel whose normalised address is its
    normalised sink ends its sink edge at the node of the channel. *)
Lemma AddChannel_AddSource_resolves (c : Channel) (s : SourceType) (g : Graph) :
  TrimSuffix (chan_Address c) "/" ≠ "" →
  sinkDNS s = TrimSuffix (chan_Address c) "/" →
  gvkKey (FromAPIVersionAndKind (src_APIVersion s) (src_Kind s)) (src_Name s)
    ≠ channelKey (chan_Name c) →
  ∃ g1 g2 e,
    AddChannel c g = Ok tt g1
    ∧ AddSource s g1 = Ok tt g2
    ∧ nodes g1 !! channelKey (chan_Name c) = Some (length (node_heap g))
    ∧ names g1 !! length (node_heap g) = Some ("Channel " +:+ chan_Name c)
    ∧ dnsToKey g1 !! sinkDNS s = Some (channelKey (chan_Name c))
    ∧ edges g2 = edges g1 ++ [e]
    ∧ edge_src e = Some (length (node_heap g1))
    ∧ edge_dst e = Some (length (node_heap g)).
Proof.
  intros Hne Hsink Hkey.
  destruct (AddChannel_spec c g)
    as (g1 & Hc & Hn1 & Hd1 & _ & Hnames1 & _).
  destruct (AddSource_node_spec s g1) as (g1' & Hsn & Hn1' & Hd1' & _ & Hnames1' & He1' & _).
  destruct (AddSource_sink_spec s (length (node_heap g1)) g1')
    as (g2 & Hss & _ & _ & _ & Hedge & _).
  assert (lookupSink (sinkDNS s) g1'
          = SinkResolved (channelKey (chan_Name c)) (length (node_heap g))) as Hlook.
  { unfold lookupSink. rewrite Hd1', Hd1, Hn1', Hn1, Hsink. look. reflexivity. }
  rewrite Hlook in Hedge. destruct Hedge as (e & He & Hsrc & Hdst & _); [congruence|].
  exists g1, g2, e. split; [done|]. split.
  { unfold AddSource. msimpl. by rewrite Hsn. }
  rewrite Hn1, Hd1, Hsink, Hnames1, He, He1'. look.
  repeat split; try done.
  unfold names. rewrite lookup_app_r, length_fmap, Nat.sub_diag by (by rewrite length_fmap).
  reflexivity.
Qed.

Lemma TrimSuffix_slash_id s :
  (∀ s', s ≠ s' +:+ "/") → TrimSuffix s "/" = s.
Proof.
  induction s as [|a s IH]; intros Hs; [done|].
  cbn [TrimSuffix].
  destruct (String.eqb_spec (String a s) "/") as [E|_].
  { exfalso. apply (Hs ""). by rewrite E. }
  f_equal. apply IH. intros s' ->. by apply (Hs (String a s')).
Qed.

Lemma TrimSuffix_slash_either (a s : string) :
  (∀ a', a ≠ a' +:+ "/") → s = a ∨ s = a +:+ "/" → TrimSuffix s "/" = a.
Proof.
  intros Ha [-> | ->]; [by apply TrimSuffix_slash_id|apply TrimSuffix_slash_app].
Qed.

(** C7, amended: let [a] be an address that is not empty and does not end
    in a slash.  For a channel whose address is [a] or [a/] and a source
    whose sink is [a] or [a/], registered under another key than the
    channel, the sink edge of the source added after the channel ends at
    the node of the channel, found through the entry [a] of the address
    index: the slash is stripped on the side of the channel and on the side
    of the source. *)
Theorem C7_sink_edge_resolves_to_channel_node
    (c : Channel) (s : SourceType) (a uri : string) (g : Graph) :
  a ≠ "" → (∀ a', a ≠ a' +:+ "/") →
  chan_Address c = a ∨ chan_Address c = a +:+ "/" →
  src_SinkURI s = Some uri →
  uri = a ∨ uri = a +:+ "/" →
  gvkKey (FromAPIVersionAndKind (src_APIVersion s) (src_Kind s)) (src_Name s)
    ≠ channelKey (chan_Name c) →
  ∃ g1 g2 e,
    AddChannel c g = Ok tt g1
    ∧ AddSource s g1 = Ok tt g2
    ∧ nodes g1 !! channelKey (chan_Name c) = Some (length (node_heap g))
    ∧ names g1 !! length (node_heap g) = Some ("Channel " +:+ chan_Name c)
    ∧ dnsToKey g1 !! a = Some (channelKey (chan_Name c))
    ∧ edges g2 = edges g1 ++ [e]
    ∧ edge_src e = Some (length (node_heap g1))
    ∧ edge_dst e = Some (length (node_heap g)).
Proof.
  intros Hne Hslash Hchan Hsink Huri Hkey.
  assert (TrimSuffix (chan_Address c) "/" = a) as Ha by by apply TrimSuffix_slash_either.
  assert (sinkDNS s = a) as Hs.
  { unfold sinkDNS. rewrite Hsink. by apply TrimSuffix_slash_either. }
  destruct (AddChannel_AddSource_resolves c s g) as (g1 & g2 & e & H);
    [by rewrite Ha|by rewrite Ha|done|].
  rewrite Hs in H. by exists g1, g2, e.
Qed.

Lemma no_trailing_slash_chan : ∀ a', "http://chan.ns.svc.cluster.local" ≠ a' +:+ "/".
Proof.
  intros a' E.
  assert (TrimSuffix "http://chan.ns.svc.cluster.local" "/" = a') as H
    by (rewrite E; apply TrimSuffix_slash_app).
  vm_compute in H. subst a'. by vm_compute in E.
Qed.

Lemma C7_witness :
  (∃ g1 g2 e,
      AddChannel (mkChannel "chan" "Channel" "eventing.knative.dev/v1alpha1"
                    "http://chan.ns.svc.cluster.local/") (New "ns") = Ok tt g1
      ∧ AddSource (mkSource "src" "PingSource" "sources.eventing.knative.dev/v1alpha1"
                     (Some "http://chan.ns.svc.cluster.local")) g1 = Ok tt g2
      ∧ nodes g1 !! channelKey "chan" = Some 0
      ∧ names g1 !! 0 = Some "Channel chan"
      ∧ dnsToKey g1 !! "http://chan.ns.svc.cluster.local" = Some (channelKey "chan")
      ∧ edges g2 = edges g1 ++ [e]
      ∧ edge_src e = Some (length (node_heap g1))
      ∧ edge_dst e = Some 0)
  ∧ (∃ g1 g2 e,
      AddChannel (mkChannel "chan" "Channel" "eventing.knative.dev/v1alpha1"
                    "http://chan.ns.svc.cluster.local") (New "ns") = Ok tt g1
      ∧ AddSource (mkSource "src" "PingSource" "sources.eventing.knative.dev/v1alpha1"
                     (Some "http://chan.ns.svc.cluster.local/")) g1 = Ok tt g2
      ∧ nodes g1 !! channelKey "chan" = Some 0
      ∧ names g1 !! 0 = Some "Channel chan"
      ∧ dnsToKey g1 !! "http://chan.ns.svc.cluster.local" = Some (channelKey "chan")
      ∧ edges g2 = edges g1 ++ [e]
      ∧ edge_src e = Some (length (node_heap g1))
      ∧ edge_dst e = Some 0).
Proof.
  split.
  - apply (C7_sink_edge_resolves_to_channel_node
             (mkChannel "chan" "Channel" "eventing.knative.dev/v1alpha1"
                "http://chan.ns.svc.cluster.local/")
             (mkSource "src" "PingSource" "sources.eventing.knative.dev/v1alpha1"
                (Some "http://chan.ns.svc.cluster.local"))
             "http://chan.ns.svc.cluster.local" "http://chan.ns.svc.cluster.local"
             (New "ns"));
      [discriminate|apply no_trailing_slash_chan|by right|reflexivity|by left|by vm_compute].
  - apply (C7_sink_edge_resolves_to_channel_node
             (mkChannel "chan" "Channel" "eventing.knative.dev/v1alpha1"
                "http://chan.ns.svc.cluster.local")
             (mkSource "src" "PingSource" "sources.eventing.knative.dev/v1alpha1"
                (Some "http://chan.ns.svc.cluster.local/"))
             "http://chan.ns.svc.cluster.local" "http://chan.ns.svc.cluster.local/"
             (New "ns"));
      [discriminate|apply no_trailing_slash_chan|by left|reflexivity|by right|by vm_compute].
Defined.

(** ** What each change of the builder connects *)

Lemma elem_of_alter_inv {A} (f : A → A) (i : nat) (l : list A) (x : A) :
  x ∈ alter f i l → x ∈ l ∨ ∃ y, y ∈ l ∧ x = f y.
Proof.
  intros (j & Hj)%list_elem_of_lookup.
  rewrite list_lookup_alter in Hj. case_decide; subst.
  - destruct (l !! j) as [y|] eqn:Hy; [|done].
    right. exists y. split; [by eapply list_elem_of_lookup_2|]. by injection Hj.
  - left. by eapply list_elem_of_lookup_2.
Qed.

Lemma connected_with_node_heap f g p :
  connected (with_node_heap f g) p → connected g p.
Proof. done. Qed.

Lemma connected_with_subgraphs f g p :
  connected (with_subgraphs f g) p → connected g p.
Proof. done. Qed.

Lemma connected_with_dnsToKey f g p :
  connected (with_dnsToKey f g) p → connected g p.
Proof. done. Qed.

Lemma connected_with_edgeCount f g p :
  connected (with_edgeCount f g) p → connected g p.
Proof. done. Qed.

Lemma connected_with_nodes_insert k n g p :
  connected (with_nodes <[k:=n]> g) p → connected g p ∨ p = n.
Proof.
  intros [(k' & Hk)|H]; [|left; by right].
  cbn in Hk. apply lookup_insert_Some in Hk as [[_ ->]|[_ Hk]]; [by right|].
  left. left. by exists k'.
Qed.

Lemma connected_dot_add_node n g p :
  connected (with_dot (dot_add_node n) g) p → connected g p ∨ p = n.
Proof.
  intros [H|[H|H]]; [left; by left| |left; by do 2 right].
  unfold toplevel in H. cbn in H.
  apply elem_of_app in H as [H|H%list_elem_of_singleton]; [|by right].
  left. right. by left.
Qed.

Lemma connected_dot_add_subgraph s g p :
  connected (with_dot (dot_add_subgraph s) g) p → connected g p.
Proof. done. Qed.

Lemma connected_dot_add_edge e g p :
  connected (with_dot (dot_add_edge e) g) p →
  connected g p ∨ edge_src e = Some p ∨ edge_dst e = Some p.
Proof.
  intros [H|[H|[H|(e' & He & H)]]];
    [left; by left|left; right; by left|left; do 2 right; by left|].
  unfold edges in He. cbn in He.
  apply elem_of_app in He as [He| ->%list_elem_of_singleton]; [|by right].
  left. do 3 right. by exists e'.
Qed.

Lemma connected_new_subgraph name g p :
  connected (with_subgraph_heap (λ h, h ++ [mkSubGraph name ∅ []]) g) p → connected g p.
Proof.
  intros [H|[H|[(sg & Hsg & H)|H]]];
    [by left|right; by left| |by do 3 right].
  cbn in Hsg. apply elem_of_app in Hsg as [Hsg| ->%list_elem_of_singleton].
  - do 2 right. left. by exists sg.
  - cbn in H. by apply elem_of_nil in H.
Qed.

Lemma connected_sg_set k v s g p :
  connected (with_subgraph_heap (alter (sg_set k v) s) g) p → connected g p.
Proof.
  intros [H|[H|[(sg & Hsg & H)|H]]];
    [by left|right; by left| |by do 3 right].
  cbn in Hsg. apply elem_of_alter_inv in Hsg as [Hsg|(sg0 & Hsg & ->)];
    do 2 right; left; eauto.
Qed.

Lemma connected_sg_add_node n s g p :
  connected (with_subgraph_heap (alter (sg_add_node n) s) g) p → connected g p ∨ p = n.
Proof.
  intros [H|[H|[(sg & Hsg & H)|H]]];
    [left; by left|left; right; by left| |left; by do 3 right].
  cbn in Hsg. apply elem_of_alter_inv in Hsg as [Hsg|(sg0 & Hsg & ->)].
  - left. do 2 right. left. eauto.
  - cbn in H. apply elem_of_app in H as [H|H%list_elem_of_singleton]; [|by right].
    left. do 2 right. left. eauto.
Qed.

(** Decomposes a hypothesis [connected g' p], for [g'] a builder obtained by
    the changes above, into the ways [p] can be connected. *)
Ltac conn H :=
  repeat
    lazymatch type of H with
    | connected (with_node_heap _ _) _ => apply connected_with_node_heap in H
    | connected (with_subgraphs _ _) _ => apply connected_with_subgraphs in H
    | connected (with_dnsToKey _ _) _ => apply connected_with_dnsToKey in H
    | connected (with_edgeCount _ _) _ => apply connected_with_edgeCount in H
    | connected (with_dot (dot_add_subgraph _) _) _ =>
        apply connected_dot_add_subgraph in H
    | connected (with_subgraph_heap (alter (sg_set _ _) _) _) _ =>
        apply connected_sg_set in H
    | connected (with_subgraph_heap (alter (sg_add_node _) _) _) _ =>
        apply connected_sg_add_node in H as [H|H]
    | connected (with_subgraph_heap _ _) _ => apply connected_new_subgraph in H
    | connected (with_nodes _ _) _ => apply connected_with_nodes_insert in H as [H|H]
    | connected (with_dot (dot_add_node _) _) _ =>
        apply connected_dot_add_node in H as [H|H]
    | connected (with_dot (dot_add_edge _) _) _ =>
        apply connected_dot_add_edge in H as [H|[H|H]]
    end.

(** ** [AddSubscription] *)

Lemma index_in_range {A} (l : list A) (i : Z) (g : Graph) :
  (0 ≤ i < Z.of_nat (length l))%Z → ∃ x, index l i g = Ok x g.
Proof.
  intros Hi. unfold index. case_decide; [lia|].
  destruct (l !! Z.to_nat i) as [x|] eqn:Hx; [by exists x|].
  apply lookup_ge_None in Hx. lia.
Qed.

Lemma newEdge_spec colors src dst g :
  colors ≠ [] → (0 ≤ edgeCount g)%Z →
  ∃ e f, newEdge colors src dst g = Ok e (with_edgeCount f g)
         ∧ edge_src e = src ∧ edge_dst e = dst.
Proof.
  intros Hcolors Hcount. unfold newEdge. msimpl.
  destruct (rainbowEdge g).
  - case_decide as Hlen; [by destruct colors|].
    destruct (index_in_range colors (Z.rem (edgeCount g) (Z.of_nat (length colors))) g)
      as (color & ->).
    { apply Z.rem_bound_pos; lia. }
    by eexists _, _.
  - exists (NewEdge src dst), (λ c, c). by destruct g.
Qed.

(** Closes a case in which the lookups contradict one another. *)
Ltac absurd_lookup :=
  solve [ look;
          match goal with
          | H1 : ?x = None, H2 : ?x = Some _ |- _ => rewrite H1 in H2; discriminate H2
          end ].

Ltac mrun_sub :=
  repeat (msimpl;
          rewrite ?getOrCreateSubscriber_eq, ?getOrCreateReply_eq;
          msimpl;
          first
            [ match goal with
              | |- context [newEdge ?c ?a ?b ?st] =>
                  let e := fresh "e" in
                  let f := fresh "f" in
                  let Hsrc := fresh "Hsrc" in
                  let Hdst := fresh "Hdst" in
                  destruct (newEdge_spec c a b st) as (e & f & -> & Hsrc & Hdst);
                  [assumption|msimpl; assumption|]
              end
            | mcase; try absurd_lookup
            | idtac ]).

Lemma AddSubscription_placement colors (s : Subscription) (g : Graph) :
  colors ≠ [] → (0 ≤ edgeCount g)%Z →
  let sn := length (node_heap g) in
  let ck := gvkKey (ref_GroupVersionKind (subn_Channel s)) (ref_Name (subn_Channel s)) in
  ∃ g' created,
    AddSubscription colors s g = Ok tt g'
    ∧ names g' = names g ++ ["Subscription " +:+ subn_Name s] ++ created
    ∧ match subgraphs g !! ck with
      | Some cg =>
          subgraph_heap g' = alter (sg_add_node sn) cg (subgraph_heap g)
          ∧ (toplevel g' = toplevel g ∨ toplevel g' = toplevel g ++ [S sn])
      | None =>
          subgraph_heap g' = subgraph_heap g
          ∧ (toplevel g' = toplevel g ++ [sn] ∨ toplevel g' = toplevel g ++ [sn; S sn])
      end.
Proof.
  intros Hcolors Hcount sn ck. subst sn ck. unfold AddSubscription.
  mrun_sub; eexists _, _; (split; [reflexivity|]); msimpl; hsimpl;
    rewrite ?Nat.add_1_r, <- ?app_assoc;
    (split; [reflexivity|]); (split; [reflexivity|]);
    first [left; reflexivity | right; reflexivity].
Qed.

Lemma wf_cluster_nodes g s p : wf g → p ∈ cluster_nodes g s → p < length (node_heap g).
Proof.
  intros [Hwf _] Hp. apply Hwf. do 2 right. left.
  unfold cluster_nodes in Hp.
  destruct (subgraph_heap g !! s) as [sg|] eqn:Hsg; [|by apply elem_of_nil in Hp].
  exists sg. split; [by eapply list_elem_of_lookup_2|done].
Qed.

Lemma wf_toplevel g p : wf g → p ∈ toplevel g → p < length (node_heap g).
Proof. intros [Hwf _] Hp. apply Hwf. right. by left. Qed.

(** C9: the node of a subscription goes into the cluster registered under
    the key of its channel reference when there is one, and to the top level
    otherwise; a reference to a [Channel] of the eventing group and version
    yields the key under which [AddChannel] registered its cluster. *)
Theorem C9_subscription_placed_by_channel_reference
    colors (s : Subscription) (g : Graph) :
  wf g → colors ≠ [] → (0 ≤ edgeCount g)%Z →
  let sn := length (node_heap g) in
  let ck := gvkKey (ref_GroupVersionKind (subn_Channel s)) (ref_Name (subn_Channel s)) in
  ∃ g',
    AddSubscription colors s g = Ok tt g'
    ∧ names g' !! sn = Some ("Subscription " +:+ subn_Name s)
    ∧ match subgraphs g !! ck with
      | Some cg => (∀ cg', sn ∈ cluster_nodes g' cg' ↔ cg' = cg) ∧ sn ∉ toplevel g'
      | None => sn ∈ toplevel g' ∧ ∀ cg', sn ∉ cluster_nodes g' cg'
      end
    ∧ ∀ (c : Channel) (g0 : Graph),
        AddChannel c g0 = Ok tt g →
        subn_Channel s = mkRef "eventing.knative.dev/v1alpha1" "Channel" (chan_Name c) →
        subgraphs g !! ck = Some (length (subgraph_heap g0))
        ∧ cluster_nodes g' (length (subgraph_heap g0)) = [length (node_heap g0); sn].
Proof.
  intros Hwf Hcolors Hcount sn ck.
  destruct (AddSubscription_placement colors s g Hcolors Hcount)
    as (g' & created & Hrun & Hnames & Hplace).
  fold sn ck in Hnames, Hplace.
  assert (∀ cg, sn ∉ cluster_nodes g cg) as Hfresh_sg.
  { intros cg Hin. apply (wf_cluster_nodes _ _ _ Hwf) in Hin. unfold sn in Hin. lia. }
  assert (sn ∉ toplevel g) as Hfresh_top.
  { intros Hin. apply (wf_toplevel _ _ Hwf) in Hin. unfold sn in Hin. lia. }
  assert (∀ cg, subgraphs g !! ck = Some cg →
            (∀ cg', sn ∈ cluster_nodes g' cg' ↔ cg' = cg)
            ∧ cluster_nodes g' cg = cluster_nodes g cg ++ [sn]) as Hin_cluster.
  { intros cg Hcg. rewrite Hcg in Hplace. destruct Hplace as [Hheap _].
    assert (cluster_nodes g' cg = cluster_nodes g cg ++ [sn]) as Hcg'.
    { unfold cluster_nodes. rewrite Hheap, list_lookup_alter_eq.
      destruct Hwf as [_ Hsub]. apply Hsub in Hcg.
      destruct (lookup_lt_is_Some_2 (subgraph_heap g) cg Hcg) as [sg ->]. reflexivity. }
    split; [|done]. intros cg'. split.
    - intros Hin. destruct (decide (cg' = cg)) as [|Hne]; [done|]. exfalso.
      unfold cluster_nodes in Hin. rewrite Hheap, list_lookup_alter_ne in Hin by done.
      by apply (Hfresh_sg cg').
    - intros ->. rewrite Hcg'. apply elem_of_app. right. by apply list_elem_of_singleton. }
  exists g'. split; [done|]. split.
  { rewrite Hnames. unfold names.
    rewrite lookup_app_r, length_fmap by (rewrite length_fmap; unfold sn; lia).
    unfold sn. by rewrite Nat.sub_diag. }
  split.
  - destruct (subgraphs g !! ck) as [cg|] eqn:Hcg.
    + split; [by apply Hin_cluster|].
      destruct Hplace as [_ [->| ->]]; [done|].
      rewrite elem_of_app, list_elem_of_singleton. intros [?|?]; [done|lia].
    + destruct Hplace as [Hheap Htop]. split.
      * destruct Htop as [-> | ->]; rewrite elem_of_app; right; by left.
      * intros cg'. unfold cluster_nodes. rewrite Hheap. apply Hfresh_sg.
  - intros c g0 Hchan Href.
    destruct (AddChannel_spec c g0)
      as (g1 & Hc & _ & _ & Hsg & _ & _ & _ & _ & _ & _ & Hcl & _).
    rewrite Hchan in Hc. injection Hc as <-.
    assert (ck = channelKey (chan_Name c)) as Hck.
    { unfold ck. rewrite Href. apply gvkKey_channel. }
    assert (subgraphs g !! ck = Some (length (subgraph_heap g0))) as Hcg.
    { rewrite Hck, Hsg. apply lookup_insert_eq. }
    split; [done|].
    destruct (Hin_cluster _ Hcg) as [_ ->]. by rewrite Hcl.
Qed.

Lemma wf_nodes g k p : wf g → nodes g !! k = Some p → p < length (node_heap g).
Proof. intros [Hwf _] Hp. apply Hwf. left. by exists k. Qed.

Lemma wf_connected g p : wf g → connected g p → p < length (node_heap g).
Proof. intros [Hwf _]. apply Hwf. Qed.

(** Bounds the nodes found in the node index of a well-formed builder,
    also behind insertions. *)
Ltac lookup_bound Hwf :=
  repeat match goal with
    | H : <[_:=_]> _ !! _ = Some _ |- _ =>
        apply lookup_insert_Some in H as [[_ H]|[_ H]]
    | H : nodes _ !! _ = Some _ |- _ => apply (wf_nodes _ _ _ Hwf) in H
    end.

(** Closes a case in which [H] connects a node the builder cannot have
    known: a node connected before, a node found in the node index, or a node
    built earlier in the call. *)
Ltac unnew Hwf H :=
  cbn [edge_src edge_dst EdgeSet NewEdge] in H;
  lazymatch type of H with
  | connected _ _ => apply (wf_connected _ _ Hwf) in H; lia
  | _ => lookup_bound Hwf; simplify_eq; lia
  end.

(** C1, the counterexample: the subscriber of the subscription is a
    reference to the very channel its reply names; resolving the subscriber
    registers a node under the channel key, reply resolution then finds it,
    and the reply edge is added (or, with an empty palette, the call
    panics): in no case does the call return with the subscriber edge only. *)
Lemma C1_subscriber_registers_reply_channel :
  nodes (New "ns") !! channelKey "c" = None
  ∧ ¬ ∃ colors g',
        AddSubscription colors
          (mkSubscription "s" (mkRef "eventing.knative.dev/v1alpha1" "Channel" "other")
             (Some (mkSubscriber
                      (Some (mkRef "eventing.knative.dev/v1alpha1" "Channel" "c")) None))
             (Some (mkReply (Some (mkRef "eventing.knative.dev/v1alpha1" "Channel" "c")))))
          (New "ns") = Ok tt g'
        ∧ length (edges g') = 1.
Proof.
  split; [by vm_compute|].
  intros (colors & g' & Hrun & Hlen).
  destruct colors as [|color colors]; [by vm_compute in Hrun|].
  vm_compute in Hrun. injection Hrun as <-. by vm_compute in Hlen.
Qed.

(** C1, amended: when no node is registered under the key of the reply
    channel and resolving the subscriber does not register one there, reply
    resolution yields no node; [AddSubscription] returns, having added the
    subscriber edge and no other, and the [Unknown Channel] node it built is
    connected to nothing. *)
Theorem C1_unresolved_reply_is_dropped
    colors (s : Subscription) (ch : ObjectReference) (g : Graph) :
  wf g →
  subn_Reply s = Some (mkReply (Some ch)) →
  nodes g !! channelKey (ref_Name ch) = None →
  subscriberKey (subn_Subscriber s) ≠ channelKey (ref_Name ch) →
  ∃ g' sub,
    AddSubscription colors s g = Ok tt g'
    ∧ edges g' = edges g ++ [EdgeSet (NewEdge (Some (length (node_heap g))) (Some sub))
                               "dir" "both"]
    ∧ names g' !! (length (node_heap g') - 1) = Some ("Unknown Channel " +:+ ref_Name ch)
    ∧ ¬ connected g' (length (node_heap g') - 1)
    ∧ ∀ g0, nodes g0 !! channelKey (ref_Name ch) = None →
            ∃ g0', getOrCreateReply (subn_Reply s) g0 = Ok None g0'.
Proof.
  intros Hwf Hreply Hmiss Hsub. unfold AddSubscription. rewrite Hreply.
  mrun_sub; look;
    eexists _, _; (split; [reflexivity|]); msimpl; hsimpl;
    (split; [reflexivity|]);
    (split; [apply list_lookup_middle; rewrite !length_app, length_fmap; cbn; lia|]);
    (split; [|intros g0 H0; rewrite getOrCreateReply_eq, H0; by eexists]);
    intros H; conn H; unnew Hwf H.
Qed.

(** ** Every operation is a step *)

Lemma extends_refl g : extends g g.
Proof. repeat split; auto. Qed.

Lemma extends_trans g1 g2 g3 : extends g1 g2 → extends g2 g3 → extends g1 g3.
Proof.
  intros (Hn1 & Hs1 & Hc1 & Hk1) (Hn2 & Hs2 & Hc2 & Hk2).
  split; [lia|]. split; [lia|]. split.
  - intros p [H|H]%Hc2; [|right; lia].
    apply Hc1 in H as [H|H]; [by left|right; lia].
  - intros k s [H|H]%Hk2; [|right; lia].
    apply Hk1 in H as [H|H]; [by left|right; lia].
Qed.

Lemma index_grows_refl g : index_grows g g.
Proof. repeat split; auto. Qed.

Lemma index_grows_trans g1 g2 g3 :
  index_grows g1 g2 → index_grows g2 g3 → index_grows g1 g3.
Proof.
  intros (Hd1 & Hq1 & Ha1) (Hd2 & Hq2 & Ha2). repeat split; auto.
  intros dns k [H|H]%Ha2; [|by right].
  apply Ha1 in H as [H|H]; [by left|right; auto].
Qed.

Lemma step_refl g : step g g.
Proof. split; [apply extends_refl|apply index_grows_refl]. Qed.

Lemma step_trans g1 g2 g3 : step g1 g2 → step g2 g3 → step g1 g3.
Proof.
  intros [He1 Hi1] [He2 Hi2].
  split; [by eapply extends_trans|by eapply index_grows_trans].
Qed.

Lemma wf_extends g g' : wf g → extends g g' → wf g'.
Proof.
  intros [Hwc Hws] (Hn & Hs & Hc & Hk). split.
  - intros p [H|H]%Hc; [|lia]. apply Hwc in H. lia.
  - intros k s [H|H]%Hk; [|lia]. apply Hws in H. lia.
Qed.

Lemma unconnected_extends g g' p :
  extends g g' → p < length (node_heap g) → ¬ connected g p → ¬ connected g' p.
Proof. intros (_ & _ & Hc & _) Hp Hnot [H|H]%Hc; [done|lia]. Qed.

Lemma index_ok_grows g g' : index_ok g → index_grows g g' → index_ok g'.
Proof.
  intros Hok (Hd & _ & Ha) dns k [H|H]%Ha; [|done]. apply Hd. by eapply Hok.
Qed.

Lemma wf_New ns : wf (New ns).
Proof.
  split.
  - intros p [(k & Hk)|[H|[(sg & Hsg & _)|(e & He & _)]]].
    + cbn in Hk. by rewrite lookup_empty in Hk.
    + by apply elem_of_nil in H.
    + by apply elem_of_nil in Hsg.
    + by apply elem_of_nil in He.
  - intros k s Hk. cbn in Hk. by rewrite lookup_empty in Hk.
Qed.

Lemma index_ok_New ns : index_ok (New ns).
Proof. intros dns k Hk. cbn in Hk. by rewrite lookup_empty in Hk. Qed.

Lemma subscriberKey_cases subscriber :
  subscriberKey subscriber = "?"
  ∨ (∃ uri, subscriberKey subscriber = uriKey uri)
  ∨ (∃ a k n, subscriberKey subscriber = refKey a k n).
Proof.
  destruct subscriber as [[[r|] [u|]]|]; cbv [subscriberKey subscriberKeyLabel fst sub_URI sub_Ref];
    eauto 6.
Qed.

(** Splits the lookups through insertions that found a node. *)
Ltac split_lookups :=
  repeat match goal with
    | Heq : @lookup _ _ _ _ _ (@insert _ _ _ _ _ _ _) = Some _ |- _ =>
        apply lookup_insert_Some in Heq as [[_ Heq]|[_ Heq]]
    end;
  subst.

(** Closes [connected g p ∨ length (node_heap g) ≤ p < _] from [H], one of
    the ways [conn] found [p] connected. *)
Ltac ext_fin H :=
  cbn [edge_src edge_dst EdgeSet NewEdge] in H;
  repeat match goal with
    | Hsrc : edge_src ?e = _ |- _ =>
        tryif constr_eq Hsrc H then fail else rewrite Hsrc in H
    | Hdst : edge_dst ?e = _ |- _ =>
        tryif constr_eq Hdst H then fail else rewrite Hdst in H
    end;
  try (injection H as H);
  split_lookups;
  first [ left; assumption
        | left; left; eexists; eassumption
        | right; msimpl; hsimpl; cbn [length]; lia ].

Ltac step_solve :=
  split;
  [ (* extends *)
    split; [msimpl; hsimpl; lia|];
    split; [msimpl; hsimpl; lia|];
    split;
    [ let p := fresh "p" in
      let H := fresh "H" in
      intros p H; conn H; ext_fin H
    | let k := fresh "k" in
      let s := fresh "s" in
      let H := fresh "H" in
      intros k s H; msimpl; split_lookups;
      first [left; assumption | right; msimpl; hsimpl; cbn [length]; lia] ]
  | (* index_grows *)
    split;
    [ let k := fresh "k" in
      let H := fresh "H" in
      intros k H; msimpl; repeat (apply lookup_insert_is_Some'; right); exact H
    | split;
      [ let n := fresh "n" in
        let H := fresh "H" in
        intros n H; msimpl; look; reflexivity
      | let d := fresh "d" in
        let k := fresh "k" in
        let H := fresh "H" in
        intros d k H; msimpl; split_lookups;
        first [ left; assumption
              | right; look; by eexists ] ] ] ].

Lemma AddTrigger_step (t : Trigger) (g : Graph) : post (AddTrigger t) g (step g).
Proof.
  unfold post, AddTrigger. mrun.
  all: timeout 20 step_solve.
Qed.

Lemma AddChannel_step (c : Channel) (g : Graph) : post (AddChannel c) g (step g).
Proof. unfold post, AddChannel. mrun. timeout 20 step_solve. Qed.

Lemma AddBroker_step (b : Broker) (g : Graph) : post (AddBroker b) g (step g).
Proof. unfold post, AddBroker. mrun. timeout 20 step_solve. Qed.

Lemma AddSource_step (s : SourceType) (g : Graph) : post (AddSource s) g (step g).
Proof.
  unfold post, AddSource, AddSource_node, AddSource_sink.
  case_decide; mrun; unfold lookupSink in *; msimpl.
  all: repeat match goal with
         | H : match ?x with _ => _ end = _ |- _ => destruct x eqn:?; try discriminate H
         end.
  all: simplify_eq.
  all: timeout 20 step_solve.
Qed.

Lemma post_step_trans {A} (m : M A) (g0 g : Graph) :
  step g0 g → post m g (step g) → post m g (step g0).
Proof.
  intros H0 H. unfold post in *. destruct (m g); [|done]. by eapply step_trans.
Qed.

Lemma AddKnService_env_step (svc : NodeId) (envs : list EnvVar) (g : Graph) :
  connected g svc →
  post (forM_ envs (λ env,
          if decide (env_Name env = "SINK" ∨ env_Name env = "TARGET") then
            target ← getOrCreateSink (env_Value env);
            AddEdge (NewEdge (Some svc) target)
          else mret tt)) g (step g).
Proof.
  revert g. induction envs as [|env envs IH]; intros g Hsvc; cbn [forM_].
  - unfold post. msimpl. apply step_refl.
  - unfold post in *. msimpl. case_decide.
    + rewrite getOrCreateSink_eq. mcase; msimpl.
      all: match goal with |- context [forM_ _ _ ?st] =>
             assert (step g st) as Hst by (timeout 20 step_solve);
             assert (connected st svc) as Hsvc'
               by (destruct Hsvc as [H'|[H'|[H'|H']]];
                   [left; exact H'
                   |right; left; unfold toplevel in *; msimpl;
                    rewrite ?elem_of_app; auto
                   |do 2 right; left; exact H'
                   |do 3 right; destruct H' as (e & He & H'); exists e;
                    unfold edges in *; msimpl; rewrite ?elem_of_app; auto]);
             specialize (IH st Hsvc');
             destruct (forM_ _ _ st); [by eapply step_trans|done]
           end.
    + by apply IH.
Qed.

Lemma AddKnService_step (service : Service) (g : Graph) : post (AddKnService service) g (step g).
Proof.
  unfold post, AddKnService. msimpl.
  destruct (nodes g !! servingKey (svc_Kind service) (svc_Name service)) as [svc|] eqn:Hsvc;
    rewrite ?setNodeShapeForKind_eq; msimpl;
    (destruct (svc_Containers service) as [|c cs]; [by rewrite index_nil|]);
    rewrite index_head.
  - pose proof (AddKnService_env_step svc (ctr_Env c) g) as Hloop.
    unfold post in Hloop. msimpl. apply Hloop. left. by exists (servingKey (svc_Kind service) (svc_Name service)).
  - match goal with |- context [forM_ _ _ ?st] =>
      pose proof (AddKnService_env_step (length (node_heap g)) (ctr_Env c) st) as Hloop;
      assert (step g st) as Hst by (timeout 20 step_solve)
    end.
    unfold post in Hloop. msimpl.
    match goal with |- context [forM_ _ _ ?st] => destruct (forM_ _ _ st) end; [|done].
    eapply step_trans; [exact Hst|]. apply Hloop.
    right. left. unfold toplevel. msimpl. rewrite elem_of_app, list_elem_of_singleton. auto.
Qed.

Lemma newEdge_post colors src dst g :
  match newEdge colors src dst g with
  | Ok e g' => ∃ f, g' = with_edgeCount f g ∧ edge_src e = src ∧ edge_dst e = dst
  | Panic _ => True
  end.
Proof.
  unfold newEdge. msimpl. destruct (rainbowEdge g).
  - case_decide; [done|]. unfold index. case_decide; [done|].
    destruct (colors !! _); [|done]. msimpl. by eexists.
  - exists (λ c, c). by destruct g.
Qed.

Lemma AddSubscription_step colors (s : Subscription) (g : Graph) :
  post (AddSubscription colors s) g (step g).
Proof.
  unfold post, AddSubscription.
  repeat (msimpl;
          rewrite ?getOrCreateSubscriber_eq, ?getOrCreateReply_eq;
          msimpl;
          first
            [ match goal with
              | |- context [newEdge ?c ?a ?b ?st] =>
                  let e := fresh "e" in
                  let f := fresh "f" in
                  let Hsrc := fresh "Hsrc" in
                  let Hdst := fresh "Hdst" in
                  let Hne := fresh "Hne" in
                  pose proof (newEdge_post c a b st) as Hne;
                  destruct (newEdge c a b st) as [e ?|?];
                  [destruct Hne as (f & -> & Hsrc & Hdst)|exact I]
              end
            | mcase
            | idtac ]).
  all: timeout 20 step_solve.
Qed.

Lemma AddSequence_steps_step name sg num steps previousNode g :
  connected g previousNode →
  match AddSequence_steps name sg num steps previousNode g with
  | Ok last g' => step g g' ∧ connected g' last
  | Panic _ => True
  end.
Proof.
  revert num previousNode g.
  induction steps as [|st steps IH]; intros num previousNode g Hprev; cbn [AddSequence_steps].
  - msimpl. split; [apply step_refl|done].
  - mrun.
    all: match goal with |- context [AddSequence_steps _ _ _ _ ?stepn ?st] =>
           assert (step g st) as Hst by (timeout 20 step_solve);
           assert (connected st stepn) as Hstepn
             by (left; exists (sequenceStepKey name num); msimpl; look; reflexivity);
           specialize (IH (S num) stepn st Hstepn);
           destruct (AddSequence_steps _ _ _ _ stepn st); [|done];
           destruct IH as [IH1 IH2]; split; [by eapply step_trans|done]
         end.
Qed.

Lemma AddSequence_step (seq : Sequence) (g : Graph) : post (AddSequence seq) g (step g).
Proof.
  unfold post, AddSequence. msimpl.
  match goal with |- context [AddSequence_steps _ _ _ _ ?sn ?st] =>
    assert (step g st) as [E1 I1] by (timeout 20 step_solve);
    assert (connected st sn) as Hsn
      by (left; exists (sequenceKey (seq_Name seq)); msimpl; look; reflexivity);
    pose proof (AddSequence_steps_step (seq_Name seq) (length (subgraph_heap g)) 0
                  (seq_Steps seq) sn st Hsn) as Hloop;
    destruct (AddSequence_steps _ _ _ _ sn st) as [last g1|]; [|done]
  end.
  destruct Hloop as [[E2 I2] Hlast].
  pose proof (extends_trans _ _ _ E1 E2) as E12.
  pose proof (index_grows_trans _ _ _ I1 I2) as I12.
  destruct E12 as (Hn & Hs & Hc & Hk).
  destruct E2 as (_ & Hs2 & _ & _).
  msimpl. rewrite !length_alter, length_app in Hs2. cbn [length] in Hs2.
  mrun.
  all: split;
    [ split; [msimpl; hsimpl; cbn [length]; lia|];
      split; [msimpl; hsimpl; cbn [length]; lia|];
      split;
      [ intros p H; conn H;
        cbn [edge_src edge_dst EdgeSet NewEdge] in H; try (injection H as H);
        try subst p;
        msimpl; hsimpl; cbn [length];
        first [ apply Hc in H as [H|H]; [by left|right; lia]
              | right; lia
              | destruct (Hc _ Hlast) as [H'|H']; [by left|right; lia]
              | match goal with
                | Hrn : nodes _ !! _ = Some _ |- _ =>
                    destruct (Hc _ (or_introl (ex_intro _ _ Hrn))) as [H'|H'];
                    [by left|right; lia]
                end ]
      | intros k s H; msimpl; hsimpl; cbn [length];
        apply lookup_insert_Some in H as [[_ <-]|[_ H]]; [right; lia|];
        apply Hk in H as [H|H]; [by left|right; lia] ]
    | eapply index_grows_trans; [exact I12|];
      split; [intros ? H; msimpl; exact H|];
      split; [intros ? H; msimpl; exact H|];
      intros ? ? H; msimpl; by left ].
Qed.

Lemma Add_step colors (r : Resource) (g : Graph) : post (Add colors r) g (step g).
Proof.
  destruct r; cbn [Add];
    auto using AddChannel_step, AddSubscription_step, AddBroker_step, AddSource_step,
               AddTrigger_step, AddKnService_step, AddSequence_step.
Qed.

Lemma build_step colors (rs : list Resource) (g g' : Graph) :
  build colors rs g = Ok tt g' → step g g'.
Proof.
  unfold build. revert g. induction rs as [|r rs IH]; intros g; cbn [forM_]; msimpl.
  - intros [= <-]. apply step_refl.
  - pose proof (Add_step colors r g) as Hr. unfold post in Hr.
    destruct (Add colors r g) as [[] g1|]; [|done].
    intros Hrest. eapply step_trans; [exact Hr|]. by apply IH.
Qed.

(** A build keeps the pointers of the builder valid. *)
Lemma build_wf colors (rs : list Resource) (g g' : Graph) :
  wf g → build colors rs g = Ok tt g' → wf g'.
Proof. intros Hwf [He _]%build_step. by eapply wf_extends. Qed.

(** ** The address index *)

(** C10: after a build every key in the address index has a node, so
    [AddSource], once it has registered the node of the source, never finds
    an address indexed under a key without a node. *)
Theorem C10_address_index_keys_have_nodes
    colors (ns : string) (rs : list Resource) (g : Graph) :
  build colors rs (New ns) = Ok tt g →
  index_ok g
  ∧ ∀ (source : SourceType) (sn : NodeId) (g1 : Graph),
      AddSource_node source g = Ok sn g1 →
      ∀ bk, lookupSink (sinkDNS source) g1 ≠ SinkKeyWithoutNode bk.
Proof.
  intros Hbuild.
  assert (index_ok g) as Hok.
  { apply build_step in Hbuild as [_ Hgrow].
    eapply index_ok_grows; [apply index_ok_New|exact Hgrow]. }
  split; [done|].
  intros source sn g1 Hnode bk.
  destruct (AddSource_node_spec source g) as (g1' & Hrun & Hnodes & Hdns & _).
  rewrite Hnode in Hrun. injection Hrun as _ <-.
  unfold lookupSink. rewrite Hdns.
  destruct (dnsToKey g !! sinkDNS source) as [k|] eqn:Hk; [|done].
  apply Hok in Hk as [n Hn].
  rewrite Hnodes.
  destruct (<[_:=_]> (nodes g) !! k) eqn:Hk'; [done|].
  apply lookup_insert_None in Hk' as [Hk' _]. congruence.
Qed.

Lemma C10_witness :
  ∃ g,
    build []
      [RSequence (mkSequence "s" "http://s/" [mkSubscriber None None] None);
       RBroker (mkBroker "default" "http://broker/")] (New "ns") = Ok tt g
    ∧ index_ok g
    ∧ ∀ (source : SourceType) (sn : NodeId) (g1 : Graph),
        AddSource_node source g = Ok sn g1 →
        ∀ bk, lookupSink (sinkDNS source) g1 ≠ SinkKeyWithoutNode bk.
Proof.
  set (rs := [RSequence (mkSequence "s" "http://s/" [mkSubscriber None None] None);
              RBroker (mkBroker "default" "http://broker/")]).
  destruct (build [] rs (New "ns")) as [[] g|] eqn:Hbuild; [|by vm_compute in Hbuild].
  exists g. split; [done|].
  exact (C10_address_index_keys_have_nodes [] "ns" rs g Hbuild).
Defined.

(** ** [AddSequence] *)

Lemma plain_NewEdge src dst : plain (NewEdge src dst) = true.
Proof. by apply bool_decide_eq_true. Qed.

Lemma plain_EdgeSet e k v : plain (EdgeSet e k v) = false.
Proof. apply bool_decide_eq_false. cbn. apply insert_non_empty. Qed.

Lemma default_last_cons {A} (x d : A) (l : list A) :
  default d (last (x :: l)) = default x (last l).
Proof. rewrite last_cons. by destruct (last l). Qed.

(** The loop over the steps: [ids] are the nodes of the steps, in order. *)
Lemma AddSequence_steps_spec name sg num steps previousNode g :
  ∃ g' ids added,
    AddSequence_steps name sg num steps previousNode g
      = Ok (default previousNode (last ids)) g'
    ∧ length ids = length steps
    ∧ NoDup ids
    ∧ edges g' = edges g ++ added
    ∧ List.filter plain added = chain previousNode ids
    ∧ (∀ i s, ids !! i = Some s →
              length (node_heap g) ≤ s < length (node_heap g')
              ∧ names g' !! s = Some (sequenceStepKey name (num + i))
              ∧ nodes g' !! sequenceStepKey name (num + i) = Some s)
    ∧ (∀ k n, nodes g !! k = Some n →
              (∀ j, k ≠ sequenceStepKey name (num + j)) →
              nodes g' !! k = Some n)
    ∧ (∃ more, names g' = names g ++ more)
    ∧ length (node_heap g) ≤ length (node_heap g').
Proof.
  revert num previousNode g.
  induction steps as [|st steps IH]; intros num previousNode g; cbn [AddSequence_steps].
  - exists g, [], []. msimpl. rewrite app_nil_r.
    repeat split; try done; try constructor.
    exists []. by rewrite app_nil_r.
  - mrun.
    all: match goal with |- context [AddSequence_steps _ _ _ _ ?stepn ?s1] =>
           destruct (IH (S num) stepn s1)
             as (g' & ids & added & -> & Hlen & Hdup & Hedges & Hplain & Hids & Hframe
                 & [more Hnames] & Hheap);
           clear IH;
           exists g', (stepn :: ids)
         end.
    all: msimpl;
      repeat first [rewrite length_alter in * | rewrite length_app in *];
      cbn [length] in *.
    all: eexists; split; [by rewrite default_last_cons|].
    all: split; [cbn; by rewrite Hlen|].
    all: split;
      [ apply NoDup_cons; split; [|done];
        intros (i & Hi)%list_elem_of_lookup; apply Hids in Hi as [Hi _]; lia|].
    all: split; [rewrite Hedges, <- !app_assoc; reflexivity|].
    all: split;
      [ cbn [app List.filter chain]; rewrite plain_EdgeSet, plain_NewEdge, Hplain;
        reflexivity|].
    all: split;
      [ intros [|i] s Hs;
        [ injection Hs as <-; rewrite Nat.add_0_r; split; [lia|]; split;
          [ rewrite Hnames; rewrite lookup_app_l
              by (rewrite length_fmap; hsimpl; cbn [length]; lia);
            hsimpl; rewrite <- ?app_assoc;
            apply list_lookup_middle; by rewrite length_fmap
          | apply Hframe; [look; reflexivity|];
            intros j E%sequenceStepKey_inj; lia ]
        | apply Hids in Hs as (Hb & Hn & Hk);
          rewrite <- Nat.add_succ_comm; split; [lia|done] ]
      |].
    all: split;
      [ intros k n' Hk Hne;
        assert (k ≠ sequenceStepKey name num) as Hk0
          by (specialize (Hne 0); by rewrite Nat.add_0_r in Hne);
        apply Hframe; [|intros j; rewrite Nat.add_succ_comm; apply Hne];
        first
          [ rewrite lookup_insert_ne by kneq; exact Hk
          | rewrite lookup_insert_ne;
            [ rewrite lookup_insert_ne by kneq; exact Hk
            | intros E; subst k;
              match goal with
              | HN : _ = None |- _ =>
                  rewrite lookup_insert_ne in HN by kneq;
                  rewrite Hk in HN; discriminate HN
              end ] ]
      |].
    all: split; [|lia].
    all: rewrite Hnames; hsimpl; rewrite <- ?app_assoc; by eexists.
Qed.

(** What [AddSequence] registers and which edges it adds; [ids] are the
    nodes of the steps in the order of their index. *)
Lemma AddSequence_spec (seq : Sequence) (g : Graph) :
  ∃ g' ids added rest,
    AddSequence seq g = Ok tt g'
    ∧ names g' !! length (node_heap g)
      = Some ("Sequence " +:+ TrimSuffix (seq_Address seq) "/")
    ∧ nodes g' !! sequenceKey (seq_Name seq) = Some (length (node_heap g))
    ∧ length ids = length (seq_Steps seq)
    ∧ NoDup (length (node_heap g) :: ids)
    ∧ (∀ i s, ids !! i = Some s →
              names g' !! s = Some (sequenceStepKey (seq_Name seq) i)
              ∧ nodes g' !! sequenceStepKey (seq_Name seq) i = Some s)
    ∧ edges g' = edges g ++ added
    ∧ List.filter plain added = chain (length (node_heap g)) ids ++ rest
    ∧ (seq_Reply seq = None → rest = []).
Proof.
  unfold AddSequence. msimpl.
  match goal with |- context [AddSequence_steps ?name ?sg ?num ?steps ?sn ?st] =>
    destruct (AddSequence_steps_spec name sg num steps sn st)
      as (g1 & ids & added & -> & Hlen & Hdup & Hedges & Hplain & Hids & Hframe
          & [more Hnames] & Hheap)
  end.
  msimpl. repeat first [rewrite length_alter in * | rewrite length_app in *].
  cbn [length] in *.
  rewrite names_alter_node_set, fmap_app in Hnames. cbn [fmap list_fmap] in Hnames.
  assert (nodes g1 !! sequenceKey (seq_Name seq) = Some (length (node_heap g))) as Hkey.
  { apply Hframe; [by rewrite lookup_insert_eq|].
    intros j. apply sequenceKey_sequenceStepKey. }
  assert ((node_name <$> node_heap g1) !! length (node_heap g)
          = Some ("Sequence " +:+ TrimSuffix (seq_Address seq) "/")) as Hstart.
  { rewrite Hnames, <- app_assoc. apply list_lookup_middle. by rewrite length_fmap. }
  assert (NoDup (length (node_heap g) :: ids)) as Hdup'.
  { apply NoDup_cons. split; [|done].
    intros (i & Hi)%list_elem_of_lookup. apply Hids in Hi as [Hi _]. lia. }
  assert (∀ i s, ids !! i = Some s →
            s < length (node_heap g1)
            ∧ (node_name <$> node_heap g1) !! s = Some (sequenceStepKey (seq_Name seq) i)
            ∧ nodes g1 !! sequenceStepKey (seq_Name seq) i = Some s) as Hids'.
  { intros i s Hs. apply Hids in Hs as ([_ Hb] & Hn & Hk). by repeat split. }
  assert (length (node_heap g) < length (node_heap g1)) as Hlt by lia.
  clear Hids Hframe Hheap.
  mrun; eexists; exists ids; eexists (added ++ _), (List.filter plain _);
    (split; [reflexivity|]); msimpl; hsimpl.
  all: split;
    [ first [exact Hstart | rewrite lookup_app_l by (by rewrite length_fmap); exact Hstart]|].
  all: split; [exact Hkey|].
  all: split; [exact Hlen|].
  all: split; [exact Hdup'|].
  all: split;
    [ intros i s (Hb & Hn & Hk)%Hids'; split; [|exact Hk];
      first [exact Hn | rewrite lookup_app_l by (by rewrite length_fmap); exact Hn]|].
  all: split;
    [ rewrite Hedges, <- ?app_assoc;
      first [reflexivity | f_equal; symmetry; apply app_nil_r]|].
  all: split; [rewrite List.filter_app, Hplain; reflexivity|].
  all: first [intros; reflexivity | intros E; rewrite E in *; discriminate].
Qed.

(** C8: [AddSequence] chains the steps in the order of their index.  [ids]
    are the nodes of the steps; the edges without attributes among the edges
    added are the chain from the start node through the steps, followed by
    the edges of the reply, if the sequence has one. *)
Theorem C8_sequence_steps_are_chained (seq : Sequence) (g : Graph) :
  ∃ g' ids added rest,
    AddSequence seq g = Ok tt g'
    ∧ names g' !! length (node_heap g)
      = Some ("Sequence " +:+ TrimSuffix (seq_Address seq) "/")
    ∧ nodes g' !! sequenceKey (seq_Name seq) = Some (length (node_heap g))
    ∧ length ids = length (seq_Steps seq)
    ∧ NoDup (length (node_heap g) :: ids)
    ∧ (∀ i s, ids !! i = Some s →
              names g' !! s = Some (sequenceStepKey (seq_Name seq) i)
              ∧ nodes g' !! sequenceStepKey (seq_Name seq) i = Some s)
    ∧ edges g' = edges g ++ added
    ∧ List.filter plain added = chain (length (node_heap g)) ids ++ rest
    ∧ (seq_Reply seq = None → rest = []).
Proof. apply AddSequence_spec. Qed.

(** ** Which operations reuse a node *)

(** C4, the counterexample: adding the same channel twice replaces the node
    registered under its key by a second node. *)
Lemma C4_second_AddChannel_replaces_node :
  ∃ g1 g2,
    AddChannel (mkChannel "c" "Channel" "eventing.knative.dev/v1alpha1" "http://c/")
      (New "ns") = Ok tt g1
    ∧ AddChannel (mkChannel "c" "Channel" "eventing.knative.dev/v1alpha1" "http://c/") g1
      = Ok tt g2
    ∧ nodes g1 !! channelKey "c" = Some 0
    ∧ nodes g2 !! channelKey "c" = Some 1
    ∧ names g2 = ["Channel c"; "Channel c"].
Proof. eexists _, _. split; [by vm_compute|]. split; [by vm_compute|]. by vm_compute. Qed.

Lemma AddTrigger_registers (t : Trigger) (g : Graph) :
  ∃ g' n,
    AddTrigger t g = Ok tt g'
    ∧ nodes g' !! triggerKey (trg_Name t) = Some n
    ∧ length (node_heap g) ≤ n.
Proof.
  unfold AddTrigger.
  mrun; eexists _, _; (split; [reflexivity|]); msimpl; look;
    (split; [reflexivity|]); hsimpl; lia.
Qed.

Lemma AddSubscription_registers colors (s : Subscription) (g : Graph) :
  post (AddSubscription colors s) g
    (λ g', nodes g' !! subscriptionKey (subn_Name s) = Some (length (node_heap g))).
Proof.
  unfold post, AddSubscription.
  repeat (msimpl;
          rewrite ?getOrCreateSubscriber_eq, ?getOrCreateReply_eq;
          msimpl;
          first
            [ match goal with
              | |- context [newEdge ?c ?a ?b ?st] =>
                  let Hne := fresh "Hne" in
                  pose proof (newEdge_post c a b st) as Hne;
                  destruct (newEdge c a b st) as [? ?|?];
                  [destruct Hne as (? & -> & _ & _)|exact I]
              end
            | mcase
            | idtac ]).
  all: msimpl; look; reflexivity.
Qed.

(** C4, amended: only the resolving paths reuse the node registered under a
    key, namely [getOrCreateSubscriber], the lookup of the service node in
    [AddKnService] and the lookup of the broker node in [AddTrigger].  The
    other operations build a node on every call and register it under their
    key, whatever was registered there. *)
Theorem C4_only_resolution_reuses_nodes colors (g : Graph) :
  (∀ subscriber n,
      nodes g !! subscriberKey subscriber = Some n →
      getOrCreateSubscriber subscriber g = Ok (Some n) g)
  ∧ (∀ service n g',
      nodes g !! servingKey (svc_Kind service) (svc_Name service) = Some n →
      AddKnService service g = Ok tt g' → nodes g' = nodes g)
  ∧ (∀ t n,
      nodes g !! brokerKey (trg_Broker t) = Some n →
      ∃ g', AddTrigger t g = Ok tt g' ∧ nodes g' !! brokerKey (trg_Broker t) = Some n)
  ∧ (∀ c, ∃ g', AddChannel c g = Ok tt g'
                ∧ nodes g' !! channelKey (chan_Name c) = Some (length (node_heap g)))
  ∧ (∀ b, ∃ g', AddBroker b g = Ok tt g'
                ∧ nodes g' !! brokerKey (brk_Name b) = Some (length (node_heap g)))
  ∧ (∀ s, ∃ g', AddSource s g = Ok tt g'
                ∧ nodes g' !! gvkKey (FromAPIVersionAndKind (src_APIVersion s) (src_Kind s))
                                     (src_Name s)
                  = Some (length (node_heap g)))
  ∧ (∀ s g', AddSubscription colors s g = Ok tt g' →
             nodes g' !! subscriptionKey (subn_Name s) = Some (length (node_heap g)))
  ∧ (∀ t, ∃ g' n, AddTrigger t g = Ok tt g'
                  ∧ nodes g' !! triggerKey (trg_Name t) = Some n
                  ∧ length (node_heap g) ≤ n)
  ∧ (∀ seq, ∃ g', AddSequence seq g = Ok tt g'
                  ∧ nodes g' !! sequenceKey (seq_Name seq) = Some (length (node_heap g))).
Proof.
  split; [|split; [|split; [|split; [|split; [|split; [|split; [|split]]]]]]].
  - intros subscriber n Hn. by rewrite getOrCreateSubscriber_eq, Hn.
  - intros service n g' Hn. unfold AddKnService. msimpl. rewrite Hn. msimpl.
    destruct (svc_Containers service) as [|c cs]; [by rewrite index_nil|].
    rewrite index_head.
    pose proof (AddKnService_env_frame n (ctr_Env c) g) as (g'' & Hrun & Hnodes & _).
    msimpl. rewrite Hrun. by intros [= <-].
  - intros t n Hn.
    destruct (AddTrigger_spec t g) as (g' & created & Hrun & _ & _ & Hbk & _).
    exists g'. split; [done|]. by rewrite Hbk, Hn.
  - intros c. destruct (AddChannel_spec c g) as (g' & Hrun & Hnodes & _).
    exists g'. split; [done|]. rewrite Hnodes. apply lookup_insert_eq.
  - intros b. destruct (AddBroker_spec b g) as (g' & Hrun & Hnodes & _).
    exists g'. split; [done|]. rewrite Hnodes. apply lookup_insert_eq.
  - intros s.
    destruct (AddSource_node_spec s g) as (g1 & Hrun1 & Hnodes1 & _).
    destruct (AddSource_sink_spec s (length (node_heap g)) g1) as (g' & Hrun2 & Hnodes2 & _).
    exists g'. split.
    + unfold AddSource. msimpl. by rewrite Hrun1.
    + rewrite Hnodes2, Hnodes1. apply lookup_insert_eq.
  - intros s g' Hrun. pose proof (AddSubscription_registers colors s g) as H.
    unfold post in H. by rewrite Hrun in H.
  - intros t. apply AddTrigger_registers.
  - intros seq.
    destruct (AddSequence_spec seq g)
      as (g' & ids & added & rest & Hrun & _ & Hkey & _).
    by exists g'.
Qed.

(** ** The hypotheses of the theorems above hold of concrete builds *)

Lemma C1_witness :
  wf (New "ns")
  ∧ subn_Reply
      (mkSubscription "s" (mkRef "eventing.knative.dev/v1alpha1" "Channel" "in") None
         (Some (mkReply (Some (mkRef "eventing.knative.dev/v1alpha1" "Channel" "out")))))
    = Some (mkReply (Some (mkRef "eventing.knative.dev/v1alpha1" "Channel" "out")))
  ∧ nodes (New "ns") !! channelKey "out" = None
  ∧ subscriberKey None ≠ channelKey "out"
  ∧ ∃ g' sub,
      AddSubscription []
        (mkSubscription "s" (mkRef "eventing.knative.dev/v1alpha1" "Channel" "in") None
           (Some (mkReply (Some (mkRef "eventing.knative.dev/v1alpha1" "Channel" "out")))))
        (New "ns") = Ok tt g'
      ∧ edges g' = edges (New "ns")
                   ++ [EdgeSet (NewEdge (Some (length (node_heap (New "ns")))) (Some sub))
                         "dir" "both"]
      ∧ names g' !! (length (node_heap g') - 1) = Some "Unknown Channel out"
      ∧ ¬ connected g' (length (node_heap g') - 1)
      ∧ ∀ g0, nodes g0 !! channelKey "out" = None →
              ∃ g0',
                getOrCreateReply
                  (Some (mkReply (Some (mkRef "eventing.knative.dev/v1alpha1" "Channel"
                                          "out")))) g0 = Ok None g0'.
Proof.
  split; [apply wf_New|]. split; [reflexivity|]. split; [by vm_compute|].
  split; [by vm_compute|].
  apply (C1_unresolved_reply_is_dropped []
           (mkSubscription "s" (mkRef "eventing.knative.dev/v1alpha1" "Channel" "in") None
              (Some (mkReply (Some (mkRef "eventing.knative.dev/v1alpha1" "Channel" "out")))))
           (mkRef "eventing.knative.dev/v1alpha1" "Channel" "out") (New "ns")).
  - apply wf_New.
  - reflexivity.
  - by vm_compute.
  - by vm_compute.
Defined.

Lemma AddChannel_wf (c : Channel) (g g' : Graph) :
  wf g → AddChannel c g = Ok tt g' → wf g'.
Proof.
  intros Hwf Hrun. pose proof (AddChannel_step c g) as H. unfold post in H.
  rewrite Hrun in H. destruct H as [H _]. by eapply wf_extends.
Qed.

Lemma C9_witness :
  ∃ g,
    AddChannel (mkChannel "in" "Channel" "eventing.knative.dev/v1alpha1" "http://in/")
      (New "ns") = Ok tt g
    ∧ wf g ∧ ["red"] ≠ [] ∧ (0 ≤ edgeCount g)%Z
    ∧ ∃ g',
        AddSubscription ["red"]
          (mkSubscription "s" (mkRef "eventing.knative.dev/v1alpha1" "Channel" "in")
             None None) g = Ok tt g'
        ∧ names g' !! length (node_heap g) = Some "Subscription s"
        ∧ match subgraphs g
                !! gvkKey (ref_GroupVersionKind
                             (mkRef "eventing.knative.dev/v1alpha1" "Channel" "in")) "in"
          with
          | Some cg =>
              (∀ cg', length (node_heap g) ∈ cluster_nodes g' cg' ↔ cg' = cg)
              ∧ length (node_heap g) ∉ toplevel g'
          | None =>
              length (node_heap g) ∈ toplevel g'
              ∧ ∀ cg', length (node_heap g) ∉ cluster_nodes g' cg'
          end
        ∧ ∀ (c : Channel) (g0 : Graph),
            AddChannel c g0 = Ok tt g →
            mkRef "eventing.knative.dev/v1alpha1" "Channel" "in"
              = mkRef "eventing.knative.dev/v1alpha1" "Channel" (chan_Name c) →
            subgraphs g
              !! gvkKey (ref_GroupVersionKind
                           (mkRef "eventing.knative.dev/v1alpha1" "Channel" "in")) "in"
              = Some (length (subgraph_heap g0))
            ∧ cluster_nodes g' (length (subgraph_heap g0))
              = [length (node_heap g0); length (node_heap g)].
Proof.
  destruct (AddChannel (mkChannel "in" "Channel" "eventing.knative.dev/v1alpha1" "http://in/")
              (New "ns")) as [[] g|] eqn:Hg; [|by vm_compute in Hg].
  exists g.
  assert (wf g) as Hwf by (eapply AddChannel_wf; [apply wf_New|exact Hg]).
  assert ((0 ≤ edgeCount g)%Z) as Hcount by (vm_compute in Hg; by injection Hg as <-).
  split; [done|]. split; [done|]. split; [done|]. split; [done|].
  exact (C9_subscription_placed_by_channel_reference ["red"]
           (mkSubscription "s" (mkRef "eventing.knative.dev/v1alpha1" "Channel" "in")
              None None) g Hwf ltac:(done) Hcount).
Defined.

(** * Further properties of the builder *)

(** ** What a call never undoes *)

Lemma grows_refl g : grows g g.
Proof. by repeat split. Qed.

Lemma grows_trans g1 g2 g3 : grows g1 g2 → grows g2 g3 → grows g1 g3.
Proof.
  intros (Hn1 & He1 & Ht1 & Hr1 & Hk1) (Hn2 & He2 & Ht2 & Hr2 & Hk2).
  split; [by etrans|]. split; [by etrans|]. split; [by etrans|].
  split; [congruence|auto].
Qed.

Ltac keyne :=
  first [ apply channelKey_not_empty | apply subscriptionKey_not_empty
        | apply brokerKey_not_empty | apply triggerKey_not_empty
        | apply sequenceKey_not_empty | apply sequenceStepKey_not_empty
        | apply servingKey_not_empty | apply gvkKey_not_empty
        | apply subscriberKey_not_empty ].

Ltac prefix_solve :=
  msimpl; hsimpl; rewrite <- ?app_assoc; first [reflexivity | by eexists].

Ltac grows_solve :=
  split; [prefix_solve|]; split; [prefix_solve|]; split; [prefix_solve|];
  split; [reflexivity|];
  let H := fresh in intros H; msimpl; rewrite ?lookup_insert_ne by keyne; exact H.

Ltac frame_solve := split; [grows_solve | reflexivity].

Lemma AddChannel_frame (c : Channel) (g : Graph) :
  post (AddChannel c) g (λ g', grows g g' ∧ edgeCount g' = edgeCount g).
Proof. unfold post, AddChannel. mrun. timeout 20 frame_solve. Qed.

Lemma AddBroker_frame (b : Broker) (g : Graph) :
  post (AddBroker b) g (λ g', grows g g' ∧ edgeCount g' = edgeCount g).
Proof. unfold post, AddBroker. mrun. timeout 20 frame_solve. Qed.

Lemma AddTrigger_frame (t : Trigger) (g : Graph) :
  post (AddTrigger t) g (λ g', grows g g' ∧ edgeCount g' = edgeCount g).
Proof. unfold post, AddTrigger. mrun. all: timeout 20 frame_solve. Qed.

Lemma AddSource_frame (s : SourceType) (g : Graph) :
  post (AddSource s) g (λ g', grows g g' ∧ edgeCount g' = edgeCount g).
Proof.
  unfold post, AddSource, AddSource_node, AddSource_sink.
  case_decide; mrun. all: timeout 20 frame_solve.
Qed.

Lemma frame_trans g1 g2 g3 :
  grows g1 g2 ∧ edgeCount g2 = edgeCount g1 →
  grows g2 g3 ∧ edgeCount g3 = edgeCount g2 →
  grows g1 g3 ∧ edgeCount g3 = edgeCount g1.
Proof. intros [H1 E1] [H2 E2]. split; [by eapply grows_trans|congruence]. Qed.

Lemma AddKnService_env_grows (svc : NodeId) (envs : list EnvVar) (g : Graph) :
  post (forM_ envs (λ env,
          if decide (env_Name env = "SINK" ∨ env_Name env = "TARGET") then
            target ← getOrCreateSink (env_Value env);
            AddEdge (NewEdge (Some svc) target)
          else mret tt)) g (λ g', grows g g' ∧ edgeCount g' = edgeCount g).
Proof.
  revert g. induction envs as [|env envs IH]; intros g; cbn [forM_].
  - unfold post. msimpl. split; [apply grows_refl|done].
  - unfold post in *. msimpl. case_decide.
    + rewrite getOrCreateSink_eq. mcase; msimpl.
      all: match goal with |- context [forM_ _ _ ?st] =>
             assert (grows g st ∧ edgeCount st = edgeCount g) as Hst
               by (timeout 20 frame_solve);
             specialize (IH st);
             destruct (forM_ _ _ st); [by eapply frame_trans|done]
           end.
    + apply IH.
Qed.

Lemma AddKnService_frame (service : Service) (g : Graph) :
  post (AddKnService service) g (λ g', grows g g' ∧ edgeCount g' = edgeCount g).
Proof.
  unfold post, AddKnService. msimpl.
  destruct (nodes g !! servingKey (svc_Kind service) (svc_Name service)) as [svc|] eqn:Hsvc;
    rewrite ?setNodeShapeForKind_eq; msimpl;
    (destruct (svc_Containers service) as [|c cs]; [by rewrite index_nil|]);
    rewrite index_head.
  - apply (AddKnService_env_grows svc (ctr_Env c) g).
  - match goal with |- context [forM_ _ _ ?st] =>
      pose proof (AddKnService_env_grows (length (node_heap g)) (ctr_Env c) st) as Hloop;
      assert (grows g st ∧ edgeCount st = edgeCount g) as Hst by (timeout 20 frame_solve)
    end.
    unfold post in Hloop. msimpl.
    match goal with |- context [forM_ _ _ ?st] => destruct (forM_ _ _ st) end; [|done].
    eapply frame_trans; [exact Hst|exact Hloop].
Qed.

Lemma AddSubscription_frame colors (s : Subscription) (g : Graph) :
  post (AddSubscription colors s) g (λ g', grows g g' ∧ counts g g').
Proof.
  unfold post, AddSubscription, newEdge, index, counts.
  mrun.
  all: try exact I.
  all: timeout 20 (split; [grows_solve | msimpl; auto]).
Qed.

Lemma AddSequence_steps_frame name sg num steps previousNode g :
  match AddSequence_steps name sg num steps previousNode g with
  | Ok _ g' => grows g g' ∧ edgeCount g' = edgeCount g
  | Panic _ => True
  end.
Proof.
  revert num previousNode g.
  induction steps as [|st steps IH]; intros num previousNode g; cbn [AddSequence_steps].
  - msimpl. split; [apply grows_refl|done].
  - mrun.
    all: match goal with |- context [AddSequence_steps _ _ _ _ ?stepn ?st] =>
           assert (grows g st ∧ edgeCount st = edgeCount g) as Hst
             by (timeout 20 frame_solve);
           specialize (IH (S num) stepn st);
           destruct (AddSequence_steps _ _ _ _ stepn st); [|done];
           by eapply frame_trans
         end.
Qed.

Lemma AddSequence_frame (seq : Sequence) (g : Graph) :
  post (AddSequence seq) g (λ g', grows g g' ∧ edgeCount g' = edgeCount g).
Proof.
  unfold post, AddSequence. msimpl.
  match goal with |- context [AddSequence_steps _ _ _ _ ?sn ?st] =>
    assert (grows g st ∧ edgeCount st = edgeCount g) as Hst by (timeout 20 frame_solve);
    pose proof (AddSequence_steps_frame (seq_Name seq) (length (subgraph_heap g)) 0
                  (seq_Steps seq) sn st) as Hloop;
    destruct (AddSequence_steps _ _ _ _ sn st) as [last g1|]; [|done]
  end.
  pose proof (frame_trans _ _ _ Hst Hloop) as H1. clear Hst Hloop.
  mrun.
  all: destruct H1 as [H1 H2].
  all: split; [|exact H2].
  all: eapply grows_trans; [exact H1|].
  all: timeout 20 grows_solve.
Qed.

Lemma post_weaken {A} (m : M A) (g : Graph) (P Q : Graph → Prop) :
  (∀ g', P g' → Q g') → post m g P → post m g Q.
Proof. intros HPQ. unfold post. destruct (m g); auto. Qed.

Lemma Add_frame colors (r : Resource) (g : Graph) :
  post (Add colors r) g (λ g', grows g g' ∧ counts g g').
Proof.
  assert (∀ g', grows g g' ∧ edgeCount g' = edgeCount g → grows g g' ∧ counts g g') as Hw.
  { intros g' [H1 H2]. split; [done|by left]. }
  destruct r as [c|s|b|s|t|s|s]; cbn [Add].
  - exact (post_weaken _ _ _ _ Hw (AddChannel_frame c g)).
  - exact (AddSubscription_frame colors s g).
  - exact (post_weaken _ _ _ _ Hw (AddBroker_frame b g)).
  - exact (post_weaken _ _ _ _ Hw (AddSource_frame s g)).
  - exact (post_weaken _ _ _ _ Hw (AddTrigger_frame t g)).
  - exact (post_weaken _ _ _ _ Hw (AddKnService_frame s g)).
  - exact (post_weaken _ _ _ _ Hw (AddSequence_frame s g)).
Qed.

Lemma build_grows colors (rs : list Resource) (g g' : Graph) :
  build colors rs g = Ok tt g' → grows g g'.
Proof.
  unfold build. revert g. induction rs as [|r rs IH]; intros g; cbn [forM_]; msimpl.
  - intros [= <-]. apply grows_refl.
  - pose proof (Add_frame colors r g) as Hr. unfold post in Hr.
    destruct (Add colors r g) as [[] g1|]; [|done].
    intros Hrest. eapply grows_trans; [apply Hr|]. by apply IH.
Qed.

(** ** Panics and the palette *)

Lemma wrap_int_id z : (- 2 ^ 63 ≤ z < 2 ^ 63)%Z → wrap_int z = z.
Proof. intros Hz. unfold wrap_int. rewrite Z.mod_small; lia. Qed.

(** The loop over the environment: one edge for each [SINK] or [TARGET]
    entry, in order, from the service node to whatever the node index holds
    under the key of the address. *)
Lemma AddKnService_env_spec (svc : NodeId) (envs : list EnvVar) (g : Graph) :
  ∃ g',
    forM_ envs (λ env,
      if decide (env_Name env = "SINK" ∨ env_Name env = "TARGET") then
        target ← getOrCreateSink (env_Value env);
        AddEdge (NewEdge (Some svc) target)
      else mret tt) g = Ok tt g'
    ∧ nodes g' = nodes g ∧ dnsToKey g' = dnsToKey g
    ∧ node_heap g `prefix_of` node_heap g'
    ∧ edges g' = edges g
        ++ ((λ env, NewEdge (Some svc)
                      (nodes g !! default "" (dnsToKey g !! TrimSuffix (env_Value env) "/")))
            <$> filter (λ env, env_Name env = "SINK" ∨ env_Name env = "TARGET") envs).
Proof.
  revert g. induction envs as [|env envs IH]; intros g; cbn [forM_]; msimpl.
  - eexists. repeat split; try done. by rewrite app_nil_r.
  - rewrite filter_cons. case_decide.
    + rewrite getOrCreateSink_eq.
      destruct (dnsToKey g !! _) as [k|] eqn:Hk; msimpl;
        (edestruct IH as (g' & -> & Hn & Hd & Hh & He); eexists; split; [done|]);
        rewrite Hn, Hd, He; msimpl; rewrite fmap_cons, Hk, <- app_assoc; cbn [default];
        repeat split; try done.
      etrans; [|exact Hh]. msimpl. by apply prefix_app_r.
    + apply IH.
Qed.

Lemma AddKnService_returns (service : Service) (g : Graph) :
  svc_Containers service ≠ [] → ∃ g', AddKnService service g = Ok tt g'.
Proof.
  intros Hc. unfold AddKnService.
  destruct (svc_Containers service) as [|c cs]; [done|]. msimpl.
  destruct (nodes g !! servingKey (svc_Kind service) (svc_Name service)) as [svc|];
    rewrite ?setNodeShapeForKind_eq; msimpl; rewrite index_head.
  - match goal with |- context [forM_ _ _ ?st] =>
      destruct (AddKnService_env_spec svc (ctr_Env c) st) as (g' & Hg' & _) end.
    msimpl. rewrite Hg'. by eexists.
  - match goal with |- context [forM_ _ _ ?st] =>
      destruct (AddKnService_env_spec (length (node_heap g)) (ctr_Env c) st)
        as (g' & Hg' & _) end.
    msimpl. rewrite Hg'. by eexists.
Qed.

Lemma AddSource_returns (s : SourceType) (g : Graph) : ∃ g', AddSource s g = Ok tt g'.
Proof.
  destruct (AddSource_node_spec s g) as (g1 & Hsn & _).
  destruct (AddSource_sink_spec s (length (node_heap g)) g1) as (g2 & Hss & _).
  exists g2. unfold AddSource. msimpl. by rewrite Hsn.
Qed.

Lemma Add_returns colors (r : Resource) (g : Graph) :
  colors ≠ [] → (0 ≤ edgeCount g)%Z →
  (∀ s, r = RKnService s → svc_Containers s ≠ []) →
  ∃ g', Add colors r g = Ok tt g'.
Proof.
  intros Hcolors Hcount Hsvc. destruct r as [c|s|b|s|t|s|s]; cbn [Add].
  - destruct (AddChannel_spec c g) as (g' & H & _). by exists g'.
  - destruct (AddSubscription_placement colors s g Hcolors Hcount) as (g' & ? & H & _).
    by exists g'.
  - destruct (AddBroker_spec b g) as (g' & H & _). by exists g'.
  - apply AddSource_returns.
  - destruct (AddTrigger_spec t g) as (g' & ? & H & _). by exists g'.
  - apply AddKnService_returns. by apply Hsvc.
  - destruct (AddSequence_spec s g) as (g' & ? & ? & ? & H & _). by exists g'.
Qed.

Lemma build_returns colors (rs : list Resource) (g : Graph) :
  colors ≠ [] →
  (∀ s, RKnService s ∈ rs → svc_Containers s ≠ []) →
  (0 ≤ edgeCount g)%Z → (edgeCount g + Z.of_nat (length rs) < 2 ^ 63)%Z →
  ∃ g', build colors rs g = Ok tt g'
        ∧ (edgeCount g ≤ edgeCount g' ≤ edgeCount g + Z.of_nat (length rs))%Z.
Proof.
  intros Hcolors. unfold build. revert g.
  induction rs as [|r rs IH]; intros g Hsvc Hlo Hhi; cbn [forM_]; msimpl.
  - exists g. split; [done|]. cbn [length]. lia.
  - destruct (Add_returns colors r g Hcolors Hlo) as (g1 & Hr).
    { intros s ->. apply Hsvc. by left. }
    pose proof (Add_frame colors r g) as Hf. unfold post in Hf. rewrite Hr in *.
    destruct Hf as [_ Hcnt]. cbn [length] in Hhi.
    assert (edgeCount g ≤ edgeCount g1 ≤ edgeCount g + 1)%Z as Hg1.
    { destruct Hcnt as [->| ->]; [lia|]. rewrite wrap_int_id; lia. }
    destruct (IH g1) as (g' & Hrun & Hb); [|lia|lia|].
    { intros s Hs. apply Hsvc. by right. }
    exists g'. split; [done|]. cbn [length]. lia.
Qed.

(** X4: a build from [New] does not panic when the palette is not empty and
    every service has a container. *)
Theorem build_never_panics colors (rs : list Resource) (ns : string) :
  colors ≠ [] →
  (∀ s, RKnService s ∈ rs → svc_Containers s ≠ []) →
  (Z.of_nat (length rs) < 2 ^ 63)%Z →
  ∃ g', build colors rs (New ns) = Ok tt g'
        ∧ (0 ≤ edgeCount g' ≤ Z.of_nat (length rs))%Z.
Proof.
  intros Hcolors Hsvc Hlen.
  destruct (build_returns colors rs (New ns) Hcolors Hsvc) as (g' & Hrun & Hb);
    cbn [New edgeCount]; [lia|lia|].
  exists g'. split; [done|]. cbn [New edgeCount] in Hb. lia.
Qed.

Lemma build_never_panics_witness :
  ∃ g', build ["red"; "blue"]
          [RChannel (mkChannel "c" "Channel" "eventing.knative.dev/v1alpha1" "http://c/");
           RSubscription
             (mkSubscription "s" (mkRef "eventing.knative.dev/v1alpha1" "Channel" "c")
                (Some (mkSubscriber None (Some "http://svc/")))
                (Some (mkReply (Some (mkRef "eventing.knative.dev/v1alpha1" "Channel" "c")))));
           RKnService (mkService "svc" "Service" "serving.knative.dev/v1beta1"
                         [mkContainer [mkEnv "SINK" "http://c"]])]
          (New "ns") = Ok tt g'
        ∧ (0 ≤ edgeCount g' ≤ Z.of_nat 3)%Z.
Proof.
  apply build_never_panics; [discriminate| |reflexivity].
  intros s Hs.
  repeat (apply elem_of_cons in Hs as [Hs|Hs]; [try discriminate Hs|]).
  - by injection Hs as ->.
  - by apply elem_of_nil in Hs.
Defined.

(** X5: [newEdge] walks the palette: with the rainbow mode on, the edge gets
    the colour at the position of the counter modulo the size of the
    palette, and the counter advances by one. *)
Theorem newEdge_cycles_palette colors src dst (g : Graph) :
  rainbowEdge g = true → colors ≠ [] → (0 ≤ edgeCount g < 2 ^ 63 - 1)%Z →
  ∃ color,
    colors !! (Z.to_nat (edgeCount g) mod length colors) = Some color
    ∧ newEdge colors src dst g
      = Ok (mkEdge src dst {["color" := color]})
           (with_edgeCount (λ _, edgeCount g + 1)%Z g).
Proof.
  intros Hrb Hcolors Hcount. unfold newEdge. msimpl. rewrite Hrb.
  case_decide as Hlen; [by destruct colors|].
  assert (Z.rem (edgeCount g) (Z.of_nat (length colors))
          = Z.of_nat (Z.to_nat (edgeCount g) mod length colors)) as Hrem.
  { rewrite Z.rem_mod_nonneg by lia. rewrite Nat2Z.inj_mod, Z2Nat.id by lia. done. }
  unfold index. rewrite Hrem. case_decide; [lia|]. rewrite Nat2Z.id.
  destruct (colors !! _) as [color|] eqn:Hcolor.
  - exists color. split; [done|]. msimpl.
    unfold EdgeSet, NewEdge, with_edgeCount. cbn.
    rewrite wrap_int_id by lia. by rewrite insert_empty.
  - apply lookup_ge_None in Hcolor.
    pose proof (Nat.mod_upper_bound (Z.to_nat (edgeCount g)) (length colors) Hlen). lia.
Qed.

Lemma newEdge_cycles_palette_witness :
  ∃ color,
    ["red"; "green"; "blue"] !! (Z.to_nat (edgeCount (with_edgeCount (λ _, 4%Z) (New "ns")))
                                   mod length ["red"; "green"; "blue"]) = Some color
    ∧ newEdge ["red"; "green"; "blue"] (Some 0) (Some 1)
        (with_edgeCount (λ _, 4%Z) (New "ns"))
      = Ok (mkEdge (Some 0) (Some 1) {["color" := color]})
           (with_edgeCount (λ _, edgeCount (with_edgeCount (λ _, 4%Z) (New "ns")) + 1)%Z
              (with_edgeCount (λ _, 4%Z) (New "ns"))).
Proof.
  apply (newEdge_cycles_palette ["red"; "green"; "blue"] (Some 0) (Some 1)
           (with_edgeCount (λ _, 4%Z) (New "ns")));
    [reflexivity|discriminate|by vm_compute].
Defined.

(** X6: with an empty palette, adding a subscription whose reply channel has a
    node panics in every builder reached from [New]: the rainbow mode is on
    there, and [newEdge] divides by the size of the palette. *)
Theorem empty_palette_reply_panics
    (rs : list Resource) (ns : string) (g : Graph) (s : Subscription) (ch : ObjectReference) :
  build [] rs (New ns) = Ok tt g →
  subn_Reply s = Some (mkReply (Some ch)) →
  is_Some (nodes g !! channelKey (ref_Name ch)) →
  AddSubscription [] s g = Panic "runtime error: integer divide by zero".
Proof.
  intros Hbuild Hreply [cn Hcn].
  apply build_grows in Hbuild as (_ & _ & _ & Hrb & _). cbn [New rainbowEdge] in Hrb.
  unfold AddSubscription, newEdge. rewrite Hreply.
  mrun; look; try reflexivity.
  all: try match goal with H : length [] ≠ 0 |- _ => by destruct H end.
  all: try (rewrite Hrb in *; discriminate).
  all: absurd_lookup.
Qed.

Lemma empty_palette_reply_panics_witness :
  ∃ g,
    build [] [RChannel (mkChannel "c" "Channel" "eventing.knative.dev/v1alpha1" "http://c/")]
      (New "ns") = Ok tt g
    ∧ AddSubscription []
        (mkSubscription "s" (mkRef "eventing.knative.dev/v1alpha1" "Channel" "c") None
           (Some (mkReply (Some (mkRef "eventing.knative.dev/v1alpha1" "Channel" "c")))))
        g = Panic "runtime error: integer divide by zero".
Proof.
  set (rs := [RChannel (mkChannel "c" "Channel" "eventing.knative.dev/v1alpha1" "http://c/")]).
  destruct (build [] rs (New "ns")) as [[] g|] eqn:H; [|by vm_compute in H].
  exists g. split; [done|].
  apply (empty_palette_reply_panics rs "ns" g _
           (mkRef "eventing.knative.dev/v1alpha1" "Channel" "c") H); [reflexivity|].
  vm_compute in H. injection H as <-. eexists. by vm_compute.
Defined.

(** X7: in a builder reached from [New], [getOrCreateSink] yields a node exactly
    for the addresses of the address index.  For any other address it builds
    the [UnknownSink] node, attaches it to the document and returns nil. *)
Theorem getOrCreateSink_resolves_iff_indexed
    colors (rs : list Resource) (ns : string) (g : Graph) (uri : string) :
  build colors rs (New ns) = Ok tt g →
  match dnsToKey g !! TrimSuffix uri "/" with
  | Some key => ∃ n, nodes g !! key = Some n ∧ getOrCreateSink uri g = Ok (Some n) g
  | None =>
      ∃ g', getOrCreateSink uri g = Ok None g'
            ∧ names g' = names g ++ ["UnknownSink " +:+ TrimSuffix uri "/"]
            ∧ toplevel g' = toplevel g ++ [length (node_heap g)]
            ∧ nodes g' = nodes g ∧ dnsToKey g' = dnsToKey g
  end.
Proof.
  intros Hbuild. rewrite getOrCreateSink_eq.
  destruct (dnsToKey g !! TrimSuffix uri "/") as [key|] eqn:Hkey.
  - apply build_step in Hbuild as [_ Hidx].
    destruct (index_ok_grows _ _ (index_ok_New ns) Hidx _ _ Hkey) as [n Hn].
    exists n. by rewrite Hn.
  - apply build_grows in Hbuild as (_ & _ & _ & _ & Hempty).
    rewrite Hempty by (cbn; apply lookup_empty).
    eexists. split; [done|]. msimpl. hsimpl. done.
Qed.

Lemma getOrCreateSink_resolves_iff_indexed_witness :
  ∃ g,
    build ["red"]
      [RChannel (mkChannel "c" "Channel" "eventing.knative.dev/v1alpha1" "http://c/")]
      (New "ns") = Ok tt g
    ∧ match dnsToKey g !! TrimSuffix "http://c/" "/" with
      | Some key => ∃ n, nodes g !! key = Some n
                         ∧ getOrCreateSink "http://c/" g = Ok (Some n) g
      | None =>
          ∃ g', getOrCreateSink "http://c/" g = Ok None g'
                ∧ names g' = names g ++ ["UnknownSink " +:+ TrimSuffix "http://c/" "/"]
                ∧ toplevel g' = toplevel g ++ [length (node_heap g)]
                ∧ nodes g' = nodes g ∧ dnsToKey g' = dnsToKey g
      end.
Proof.
  set (rs := [RChannel (mkChannel "c" "Channel" "eventing.knative.dev/v1alpha1" "http://c/")]).
  destruct (build_returns ["red"] rs (New "ns")) as (g & H & _);
    [discriminate| |done|done|].
  { intros s Hs. apply list_elem_of_singleton in Hs. discriminate Hs. }
  exists g. split; [done|].
  exact (getOrCreateSink_resolves_iff_indexed ["red"] rs "ns" g "http://c/" H).
Defined.

(** What [AddKnService] registers and which edges it adds, for a service
    whose first container is [c]. *)
Lemma AddKnService_spec (service : Service) (c : Container) (cs : list Container)
    (g : Graph) :
  svc_Containers service = c :: cs →
  let key := servingKey (svc_Kind service) (svc_Name service) in
  let svc := default (length (node_heap g)) (nodes g !! key) in
  ∃ g',
    AddKnService service g = Ok tt g'
    ∧ nodes g' = match nodes g !! key with
                 | Some _ => nodes g
                 | None => <[key:=svc]> (nodes g)
                 end
    ∧ dnsToKey g' = dnsToKey g
    ∧ edges g' = edges g
        ++ ((λ env, NewEdge (Some svc)
                      (nodes g' !! default "" (dnsToKey g !! TrimSuffix (env_Value env) "/")))
            <$> filter (λ env, env_Name env = "SINK" ∨ env_Name env = "TARGET") (ctr_Env c)).
Proof.
  intros Hc key svc. subst key svc. unfold AddKnService. rewrite Hc. msimpl.
  destruct (nodes g !! servingKey (svc_Kind service) (svc_Name service)) as [svc|];
    rewrite ?setNodeShapeForKind_eq; msimpl; rewrite index_head; cbn [default].
  - destruct (AddKnService_env_spec svc (ctr_Env c) g) as (g' & Hg' & Hn & Hd & _ & He).
    msimpl. rewrite Hg'. exists g'. by rewrite Hn, Hd, He.
  - match goal with |- context [forM_ _ _ ?st] =>
      destruct (AddKnService_env_spec (length (node_heap g)) (ctr_Env c) st)
        as (g' & Hg' & Hn & Hd & _ & He) end.
    msimpl. rewrite Hg'. exists g'. by rewrite Hn, Hd, He.
Qed.

(** X8: [AddKnService] reads the first container only, and adds one edge
    for each of its [SINK] and [TARGET] entries, in order: from the node of
    the service to what the node index holds under the key of the address. *)
Theorem AddKnService_edges (service : Service) (c : Container) (cs : list Container)
    (g : Graph) :
  svc_Containers service = c :: cs →
  let key := servingKey (svc_Kind service) (svc_Name service) in
  let svc := default (length (node_heap g)) (nodes g !! key) in
  ∃ g',
    AddKnService service g = Ok tt g'
    ∧ nodes g' = match nodes g !! key with
                 | Some _ => nodes g
                 | None => <[key:=svc]> (nodes g)
                 end
    ∧ dnsToKey g' = dnsToKey g
    ∧ edges g' = edges g
        ++ ((λ env, NewEdge (Some svc)
                      (nodes g' !! default "" (dnsToKey g !! TrimSuffix (env_Value env) "/")))
            <$> filter (λ env, env_Name env = "SINK" ∨ env_Name env = "TARGET") (ctr_Env c)).
Proof. apply AddKnService_spec. Qed.

Lemma AddKnService_edges_witness :
  ∃ g',
    AddKnService
      (mkService "svc" "Service" "serving.knative.dev/v1beta1"
         [mkContainer [mkEnv "PORT" "8080"; mkEnv "SINK" "http://a/"; mkEnv "TARGET" "http://b"];
          mkContainer [mkEnv "SINK" "http://ignored"]])
      (New "ns") = Ok tt g'
    ∧ nodes g' = <[servingKey "Service" "svc":=0]> ∅
    ∧ dnsToKey g' = ∅
    ∧ edges g' = [NewEdge (Some 0) None; NewEdge (Some 0) None].
Proof.
  destruct (AddKnService_edges
              (mkService "svc" "Service" "serving.knative.dev/v1beta1"
                 [mkContainer [mkEnv "PORT" "8080"; mkEnv "SINK" "http://a/";
                               mkEnv "TARGET" "http://b"];
                  mkContainer [mkEnv "SINK" "http://ignored"]])
              (mkContainer [mkEnv "PORT" "8080"; mkEnv "SINK" "http://a/";
                            mkEnv "TARGET" "http://b"])
              [mkContainer [mkEnv "SINK" "http://ignored"]]
              (New "ns") eq_refl) as (g' & Hrun & Hn & Hd & He).
  exists g'. split; [exact Hrun|]. split; [exact Hn|]. split; [exact Hd|].
  rewrite He, Hn. by vm_compute.
Defined.

(** ** Shapes, sinks and clusters *)

(** X9: the shape [setNodeShapeForKind] picks from the kind is overwritten where
    [AddChannel] and [AddKnService] call it: the node of a channel always
    ends as an oval labelled [Ingress], the node [AddKnService] builds always
    as a septagon, whatever kind and API version the resource has. *)
Theorem shape_for_kind_is_overwritten (g : Graph) :
  (∀ c : Channel, ∃ g',
      AddChannel c g = Ok tt g'
      ∧ node_heap g' !! length (node_heap g)
        = Some (mkNode ("Channel " +:+ chan_Name c)
                  (<["label":="Ingress"]> (<["shape":="oval"]> ∅))))
  ∧ (∀ service : Service,
      svc_Containers service ≠ [] →
      nodes g !! servingKey (svc_Kind service) (svc_Name service) = None →
      ∃ g',
        AddKnService service g = Ok tt g'
        ∧ node_heap g' !! length (node_heap g)
          = Some (mkNode (svc_Name service +:+ nl +:+ "Kind: " +:+ svc_Kind service
                          +:+ nl +:+ svc_APIVersion service)
                    (<["shape":="septagon"]> ∅))).
Proof.
  split.
  - intros c. unfold AddChannel. mrun. eexists. split; [reflexivity|]. msimpl.
    rewrite !list_lookup_alter_eq, lookup_app_r, Nat.sub_diag by lia.
    cbn [lookup list_lookup fmap option_fmap option_map].
    unfold shapeForKind, node_set. by repeat case_decide.
  - intros service Hc Hmiss. unfold AddKnService.
    destruct (svc_Containers service) as [|c cs]; [done|]. msimpl. rewrite Hmiss.
    rewrite setNodeShapeForKind_eq. msimpl. rewrite index_head.
    match goal with |- context [forM_ _ _ ?st] =>
      destruct (AddKnService_env_spec (length (node_heap g)) (ctr_Env c) st)
        as (g' & Hg' & _ & _ & Hheap & _) end.
    msimpl. rewrite Hg'. exists g'. split; [done|].
    eapply prefix_lookup_Some; [|exact Hheap].
    rewrite !list_lookup_alter_eq, lookup_app_r, Nat.sub_diag by lia.
    cbn [lookup list_lookup fmap option_fmap option_map].
    unfold shapeForKind, node_set. by repeat case_decide.
Qed.

(** X10: a source whose sink is in no entry of the address index gets an
    [UnknownSink] node of its own: attached to the document, the end of the
    sink edge, and registered nowhere, so that the address is still not
    indexed afterwards. *)
Theorem AddSource_unknown_sink_is_not_registered (s : SourceType) (g : Graph) :
  sinkDNS s ≠ "" → dnsToKey g !! sinkDNS s = None →
  ∃ g' e,
    AddSource s g = Ok tt g'
    ∧ names g' = names g
        ++ ["Source " +:+ src_Name s +:+ nl +:+ "Kind: " +:+ src_Kind s
            +:+ nl +:+ src_APIVersion s;
            "UnknownSink " +:+ sinkDNS s]
    ∧ toplevel g' = toplevel g ++ [length (node_heap g); S (length (node_heap g))]
    ∧ edges g' = edges g ++ [e]
    ∧ edge_src e = Some (length (node_heap g))
    ∧ edge_dst e = Some (S (length (node_heap g)))
    ∧ dnsToKey g' !! sinkDNS s = None.
Proof.
  intros Hsink Hmiss. unfold AddSource, AddSource_node. msimpl.
  unfold AddSource_sink. cbn zeta. rewrite decide_True by done.
  unfold lookupSink. msimpl. rewrite Hmiss. msimpl.
  mcase; msimpl; eexists _, _; (split; [reflexivity|]); msimpl; hsimpl;
    rewrite <- ?app_assoc, ?Nat.add_1_r; by repeat split.
Qed.

Lemma AddSource_unknown_sink_is_not_registered_witness :
  ∃ g' e,
    AddSource (mkSource "src" "PingSource" "sources.eventing.knative.dev/v1alpha1"
                 (Some "http://nowhere/")) (New "ns") = Ok tt g'
    ∧ names g' = names (New "ns")
        ++ ["Source " +:+ "src" +:+ nl +:+ "Kind: " +:+ "PingSource"
            +:+ nl +:+ "sources.eventing.knative.dev/v1alpha1";
            "UnknownSink " +:+ "http://nowhere"]
    ∧ toplevel g' = toplevel (New "ns") ++ [0; 1]
    ∧ edges g' = edges (New "ns") ++ [e]
    ∧ edge_src e = Some 0
    ∧ edge_dst e = Some 1
    ∧ dnsToKey g' !! "http://nowhere" = None.
Proof.
  apply (AddSource_unknown_sink_is_not_registered
           (mkSource "src" "PingSource" "sources.eventing.knative.dev/v1alpha1"
              (Some "http://nowhere/")) (New "ns")); by vm_compute.
Defined.

Lemma cluster_after_add_node (g g' : Graph) (k : string) (sn : NodeId) (cg : SubGraphId) :
  wf g → length (node_heap g) ≤ sn →
  subgraphs g !! k = Some cg →
  subgraph_heap g' = alter (sg_add_node sn) cg (subgraph_heap g) →
  (∀ cg', sn ∈ cluster_nodes g' cg' ↔ cg' = cg)
  ∧ cluster_nodes g' cg = cluster_nodes g cg ++ [sn].
Proof.
  intros Hwf Hsn Hcg Hheap.
  assert (∀ s, sn ∉ cluster_nodes g s) as Hfresh.
  { intros s Hin. apply (wf_cluster_nodes _ _ _ Hwf) in Hin. lia. }
  assert (cluster_nodes g' cg = cluster_nodes g cg ++ [sn]) as Hcg'.
  { unfold cluster_nodes. rewrite Hheap, list_lookup_alter_eq.
    destruct Hwf as [_ Hsub]. apply Hsub in Hcg.
    destruct (lookup_lt_is_Some_2 (subgraph_heap g) cg Hcg) as [sg ->]. reflexivity. }
  split; [|done]. intros cg'. split.
  - intros Hin. destruct (decide (cg' = cg)) as [|Hne]; [done|]. exfalso.
    unfold cluster_nodes in Hin. rewrite Hheap, list_lookup_alter_ne in Hin by done.
    by apply (Hfresh cg').
  - intros ->. rewrite Hcg'. apply elem_of_app. right. by apply list_elem_of_singleton.
Qed.

Lemma AddBroker_spec_cluster (b : Broker) (g : Graph) :
  let key := brokerKey (brk_Name b) in
  ∃ g',
    AddBroker b g = Ok tt g'
    ∧ nodes g' !! key = Some (length (node_heap g))
    ∧ subgraphs g' !! key = Some (length (subgraph_heap g))
    ∧ length (node_heap g') = S (length (node_heap g))
    ∧ cluster_nodes g' (length (subgraph_heap g)) = [length (node_heap g)].
Proof.
  intros key. subst key. unfold AddBroker. mrun.
  eexists. split; [reflexivity|]. unfold cluster_nodes. msimpl. hsimpl. look.
  repeat split; try reflexivity.
  - lia.
  - rewrite !list_lookup_alter_eq, lookup_app_r, Nat.sub_diag by lia. reflexivity.
Qed.

(** Closes a goal on the membership of a node built in the call in the top
    level of the document. *)
Ltac toplevel_solve Hwf :=
  msimpl; rewrite ?elem_of_app, ?list_elem_of_singleton;
  first
    [ solve [auto 6]
    | let H := fresh in
      intros H;
      repeat match goal with
        | H' : _ ∨ _ |- _ => destruct H' as [H'|H']
        end;
      first [ lia
            | match goal with
              | H' : _ ∈ dot_nodes (Graph_ _) |- _ =>
                  apply (wf_toplevel _ _ Hwf) in H'; lia
              end ] ].

Lemma AddTrigger_placement (t : Trigger) (g : Graph) :
  wf g →
  let bk := brokerKey (trg_Broker t) in
  let tn := match nodes g !! bk with
            | Some _ => length (node_heap g)
            | None => S (length (node_heap g))
            end in
  ∃ g',
    AddTrigger t g = Ok tt g'
    ∧ nodes g' !! triggerKey (trg_Name t) = Some tn
    ∧ match subgraphs g !! bk with
      | Some bg =>
          subgraph_heap g' = alter (sg_add_node tn) bg (subgraph_heap g)
          ∧ tn ∉ toplevel g'
      | None => subgraph_heap g' = subgraph_heap g ∧ tn ∈ toplevel g'
      end.
Proof.
  intros Hwf bk tn. subst bk tn. unfold AddTrigger.
  mrun; eexists; (split; [reflexivity|]); msimpl; hsimpl; look;
    rewrite ?Nat.add_1_r;
    (split; [reflexivity|]); (split; [reflexivity|]);
    timeout 20 (toplevel_solve Hwf).
Qed.

(** X11: the node of a trigger goes into the cluster registered under the key
    of its broker when there is one, and to the top level otherwise.  After
    [AddBroker] of that broker no placeholder is built, and the cluster of
    the broker holds the broker node and the trigger node. *)
Theorem AddTrigger_placed_by_broker_cluster (t : Trigger) (g : Graph) :
  wf g →
  let bk := brokerKey (trg_Broker t) in
  ∃ g' tn,
    AddTrigger t g = Ok tt g'
    ∧ nodes g' !! triggerKey (trg_Name t) = Some tn
    ∧ names g' !! tn = Some ("Trigger " +:+ trg_Name t)
    ∧ match subgraphs g !! bk with
      | Some bg => (∀ s, tn ∈ cluster_nodes g' s ↔ s = bg) ∧ tn ∉ toplevel g'
      | None => tn ∈ toplevel g' ∧ ∀ s, tn ∉ cluster_nodes g' s
      end
    ∧ ∀ (b : Broker) (g0 : Graph),
        AddBroker b g0 = Ok tt g → brk_Name b = trg_Broker t →
        tn = length (node_heap g)
        ∧ cluster_nodes g' (length (subgraph_heap g0)) = [length (node_heap g0); tn].
Proof.
  intros Hwf bk.
  destruct (AddTrigger_placement t g Hwf) as (g' & Hrun & Htn & Hplace).
  destruct (AddTrigger_spec t g) as (g'' & created & Hrun' & Hnames & _).
  rewrite Hrun in Hrun'. injection Hrun' as <-.
  fold bk in Htn, Hplace, Hnames.
  set (tn := match nodes g !! bk with
             | Some _ => length (node_heap g)
             | None => S (length (node_heap g))
             end) in *.
  assert (length (node_heap g) ≤ tn) as Hge by (unfold tn; destruct (nodes g !! bk); lia).
  exists g', tn. split; [done|]. split; [done|]. split.
  { rewrite Hnames, app_assoc. apply list_lookup_middle.
    rewrite length_app. unfold names, tn. rewrite length_fmap.
    destruct (nodes g !! bk); cbn [length]; lia. }
  split.
  - destruct (subgraphs g !! bk) as [bg|] eqn:Hbg.
    + destruct Hplace as [Hheap Htop]. split; [|done].
      by apply (cluster_after_add_node g g' bk tn bg Hwf Hge Hbg Hheap).
    + destruct Hplace as [Hheap Htop]. split; [done|].
      intros s Hin. unfold cluster_nodes in Hin. rewrite Hheap in Hin.
      apply (wf_cluster_nodes _ _ _ Hwf) in Hin. lia.
  - intros b g0 Hb Hname.
    destruct (AddBroker_spec_cluster b g0) as (g1 & Hb' & Hn & Hs & _ & Hcl).
    rewrite Hb in Hb'. injection Hb' as <-.
    rewrite Hname in Hn, Hs. fold bk in Hn, Hs.
    assert (tn = length (node_heap g)) as Htn' by (unfold tn; by rewrite Hn).
    split; [done|].
    rewrite Hs in Hplace. destruct Hplace as [Hheap _].
    destruct (cluster_after_add_node g g' bk tn _ Hwf Hge Hs Hheap) as [_ ->].
    by rewrite Hcl.
Qed.

Lemma AddBroker_wf (b : Broker) (g g' : Graph) : wf g → AddBroker b g = Ok tt g' → wf g'.
Proof.
  intros Hwf Hrun. pose proof (AddBroker_step b g) as Hstep. unfold post in Hstep.
  rewrite Hrun in Hstep. destruct Hstep as [Hext _]. by eapply wf_extends.
Qed.

Lemma AddTrigger_placed_by_broker_cluster_witness :
  ∃ g g' tn,
    AddBroker (mkBroker "default" "http://broker/") (New "ns") = Ok tt g
    ∧ AddTrigger (mkTrigger "t" "default" None None) g = Ok tt g'
    ∧ nodes g' !! triggerKey "t" = Some tn
    ∧ names g' !! tn = Some "Trigger t"
    ∧ tn = 1
    ∧ cluster_nodes g' 0 = [0; tn].
Proof.
  destruct (AddBroker (mkBroker "default" "http://broker/") (New "ns")) as [[] g|] eqn:Hb;
    [|by vm_compute in Hb].
  destruct (AddTrigger_placed_by_broker_cluster (mkTrigger "t" "default" None None) g
              (AddBroker_wf _ _ _ (wf_New "ns") Hb))
    as (g' & tn & Hrun & Hkey & Hname & _ & Hafter).
  destruct (Hafter (mkBroker "default" "http://broker/") (New "ns") Hb eq_refl) as [Htn Hcl].
  exists g, g', tn. repeat split; try done.
  rewrite Htn. vm_compute in Hb. by injection Hb as <-.
Defined.

Lemma fmap_sg_name_alter (f : SubGraph → SubGraph) (i : nat) (h : list SubGraph) :
  (∀ sg, sg_name (f sg) = sg_name sg) →
  sg_name <$> alter f i h = sg_name <$> h.
Proof.
  intros Hf. apply list_eq. intros j.
  rewrite !list_lookup_fmap, list_lookup_alter.
  case_decide; [subst|done].
  destruct (h !! j); simpl; [by rewrite Hf | done].
Qed.

(** X12: a cluster is named after the number of keys of the subgraph index, not
    after the number of clusters built.  Registering a channel under a key
    that is already there leaves that number as it is, so the cluster of the
    channel and the cluster built next get the same name; under a new key
    the two names differ. *)
Theorem cluster_name_counts_registered_keys (c : Channel) (b : Broker) (g : Graph) :
  ∃ g1 g2 name1 name2,
    AddChannel c g = Ok tt g1
    ∧ AddBroker b g1 = Ok tt g2
    ∧ sg_name <$> subgraph_heap g2 = (sg_name <$> subgraph_heap g) ++ [name1; name2]
    ∧ name1 = "cluster_" +:+ pretty (size (subgraphs g))
    ∧ (name1 = name2 ↔ is_Some (subgraphs g !! channelKey (chan_Name c))).
Proof.
  unfold AddChannel, AddBroker. mrun.
  eexists _, _, _, _. split; [reflexivity|]. msimpl. split; [reflexivity|]. msimpl.
  split.
  { repeat first [rewrite fmap_sg_name_alter by done | rewrite fmap_app].
    rewrite <- app_assoc. reflexivity. }
  split; [reflexivity|].
  rewrite map_size_insert.
  destruct (subgraphs g !! channelKey (chan_Name c)) as [s|]; split.
  - by eexists.
  - done.
  - intros H. apply (inj (String.app _)), (inj pretty) in H. lia.
  - intros [? ?]. done.
Qed.

(** X13: a build only appends: the nodes built before keep their position and
    their name, and so do the edges and the top-level nodes of the
    document. *)
Theorem build_is_append_only colors (rs : list Resource) (g g' : Graph) :
  build colors rs g = Ok tt g' →
  names g `prefix_of` names g'
  ∧ edges g `prefix_of` edges g'
  ∧ toplevel g `prefix_of` toplevel g'.
Proof. intros (Hn & He & Ht & _)%build_grows. done. Qed.

Lemma build_is_append_only_witness :
  ∃ g g',
    AddBroker (mkBroker "default" "http://broker/") (New "ns") = Ok tt g
    ∧ build ["red"]
        [RTrigger (mkTrigger "t" "default" None None);
         RSource (mkSource "src" "PingSource" "sources.eventing.knative.dev/v1alpha1"
                    (Some "http://broker"))] g = Ok tt g'
    ∧ names g `prefix_of` names g'
    ∧ edges g `prefix_of` edges g'
    ∧ toplevel g `prefix_of` toplevel g'.
Proof.
  set (rs := [RTrigger (mkTrigger "t" "default" None None);
              RSource (mkSource "src" "PingSource" "sources.eventing.knative.dev/v1alpha1"
                         (Some "http://broker"))]).
  destruct (AddBroker_spec (mkBroker "default" "http://broker/") (New "ns")) as (g & Hb & _).
  pose proof (AddBroker_frame (mkBroker "default" "http://broker/") (New "ns")) as Hf.
  unfold post in Hf. rewrite Hb in Hf. destruct Hf as [_ Hcount].
  destruct (build_returns ["red"] rs g) as (g' & H & _);
    [discriminate| |by rewrite Hcount|by rewrite Hcount|].
  { intros s Hs. repeat (apply elem_of_cons in Hs as [Hs|Hs]; [discriminate Hs|]).
    by apply elem_of_nil in Hs. }
  exists g, g'. split; [done|]. split; [done|].
  exact (build_is_append_only ["red"] rs g g' H).
Defined.

(** X14: a build from [New] leaves no dangling pointer: every node the node
    index, the top level, a cluster or an end of an edge refers to has been
    built, and so has every cluster of the subgraph index. *)
Theorem build_has_no_dangling_pointer colors (rs : list Resource) (ns : string) (g : Graph) :
  build colors rs (New ns) = Ok tt g →
  (∀ k p, nodes g !! k = Some p → p < length (node_heap g))
  ∧ (∀ p, p ∈ toplevel g → p < length (node_heap g))
  ∧ (∀ s p, p ∈ cluster_nodes g s → p < length (node_heap g))
  ∧ (∀ e p, e ∈ edges g → edge_src e = Some p ∨ edge_dst e = Some p →
            p < length (node_heap g))
  ∧ (∀ k s, subgraphs g !! k = Some s → s < length (subgraph_heap g)).
Proof.
  intros Hwf%build_wf; [|apply wf_New].
  split; [intros k p; by apply wf_nodes|].
  split; [intros p; by apply wf_toplevel|].
  split; [intros s p; by apply wf_cluster_nodes|].
  split; [|apply Hwf].
  intros e p He Hp. apply (wf_connected _ _ Hwf). do 3 right. by exists e.
Qed.

Lemma build_has_no_dangling_pointer_witness :
  ∃ g,
    build ["red"]
      [RSequence (mkSequence "s" "http://s/" [mkSubscriber None (Some "http://step/")] None);
       RKnService (mkService "svc" "Service" "serving.knative.dev/v1beta1"
                     [mkContainer [mkEnv "SINK" "http://s"]])]
      (New "ns") = Ok tt g
    ∧ (∀ k p, nodes g !! k = Some p → p < length (node_heap g))
    ∧ (∀ p, p ∈ toplevel g → p < length (node_heap g))
    ∧ (∀ s p, p ∈ cluster_nodes g s → p < length (node_heap g))
    ∧ (∀ e p, e ∈ edges g → edge_src e = Some p ∨ edge_dst e = Some p →
              p < length (node_heap g))
    ∧ (∀ k s, subgraphs g !! k = Some s → s < length (subgraph_heap g)).
Proof.
  set (rs := [RSequence (mkSequence "s" "http://s/" [mkSubscriber None (Some "http://step/")]
                           None);
              RKnService (mkService "svc" "Service" "serving.knative.dev/v1beta1"
                            [mkContainer [mkEnv "SINK" "http://s"]])]).
  destruct (build_returns ["red"] rs (New "ns")) as (g & H & _);
    [discriminate| |done|done|].
  { intros s Hs. apply elem_of_cons in Hs as [Hs|Hs]; [discriminate Hs|].
    apply list_elem_of_singleton in Hs. by injection Hs as ->. }
  exists g. split; [done|].
  exact (build_has_no_dangling_pointer ["red"] rs "ns" g H).
Defined.

(** X15: subscribers given by address share one node when the addresses agree up
    to the case of the letters, whatever reference comes with them: the
    second resolution returns the node of the first and builds nothing, so
    the node keeps the spelling of the first. *)
Theorem subscriber_address_shared_up_to_case
    (r1 r2 : option ObjectReference) (u1 u2 : string) (g : Graph) :
  ToLower u1 = ToLower u2 →
  ∃ n g1,
    getOrCreateSubscriber (Some (mkSubscriber r1 (Some u1))) g = Ok (Some n) g1
    ∧ getOrCreateSubscriber (Some (mkSubscriber r2 (Some u2))) g1 = Ok (Some n) g1
    ∧ (nodes g !! uriKey u1 = None → names g1 = names g ++ [u1]).
Proof.
  intros Hcase%uriKey_inj. rewrite getOrCreateSubscriber_eq, subscriberKey_uri.
  destruct (nodes g !! uriKey u1) as [n|] eqn:Hn.
  - exists n, g. split; [done|].
    rewrite getOrCreateSubscriber_eq, subscriberKey_uri, <- Hcase, Hn. done.
  - eexists _, _. split; [reflexivity|].
    rewrite getOrCreateSubscriber_eq, subscriberKey_uri, <- Hcase. msimpl.
    rewrite lookup_insert_eq. split; [done|]. intros _. hsimpl. done.
Qed.

Lemma subscriber_address_shared_up_to_case_witness :
  ∃ n g1,
    getOrCreateSubscriber (Some (mkSubscriber None (Some "http://Svc.ns/"))) (New "ns")
      = Ok (Some n) g1
    ∧ getOrCreateSubscriber
        (Some (mkSubscriber (Some (mkRef "v1" "Service" "other")) (Some "HTTP://svc.NS/"))) g1
      = Ok (Some n) g1
    ∧ (nodes (New "ns") !! uriKey "http://Svc.ns/" = None
       → names g1 = names (New "ns") ++ ["http://Svc.ns/"]).
Proof.
  apply (subscriber_address_shared_up_to_case None (Some (mkRef "v1" "Service" "other"))
           "http://Svc.ns/" "HTTP://svc.NS/" (New "ns")).
  reflexivity.
Defined.

(** X16: a subscriber reference to a Knative service and [AddKnService] of that
    service meet on one node, in either order: the key of the service does
    not read its API version, and equals the key of a reference with the API
    version [serving.knative.dev/v1beta1]. *)
Theorem service_and_subscriber_reference_share_node
    (service : Service) (c : Container) (cs : list Container) (g : Graph) :
  svc_Containers service = c :: cs →
  let sub := Some (mkSubscriber
                     (Some (mkRef "serving.knative.dev/v1beta1" (svc_Kind service)
                              (svc_Name service))) None) in
  (∃ n g1 g2,
     getOrCreateSubscriber sub g = Ok (Some n) g1
     ∧ AddKnService service g1 = Ok tt g2
     ∧ nodes g2 = nodes g1
     ∧ nodes g2 !! servingKey (svc_Kind service) (svc_Name service) = Some n)
  ∧ (∃ n g1,
       AddKnService service g = Ok tt g1
       ∧ nodes g1 !! servingKey (svc_Kind service) (svc_Name service) = Some n
       ∧ getOrCreateSubscriber sub g1 = Ok (Some n) g1).
Proof.
  intros Hc sub. subst sub. split.
  - rewrite getOrCreateSubscriber_eq, subscriberKey_ref. cbn [ref_APIVersion ref_Kind ref_Name].
    rewrite refKey_servingKey.
    destruct (nodes g !! servingKey (svc_Kind service) (svc_Name service)) as [n|] eqn:Hn.
    + destruct (AddKnService_spec service c cs g Hc) as (g2 & Hrun & Hnodes & _).
      rewrite Hn in Hnodes. exists n, g, g2. by rewrite Hnodes.
    + match goal with |- context [Ok (Some ?n) ?st] =>
        destruct (AddKnService_spec service c cs st Hc) as (g2 & Hrun & Hnodes & _);
        assert (nodes st !! servingKey (svc_Kind service) (svc_Name service) = Some n)
          as Hst by (msimpl; apply lookup_insert_eq);
        exists n, st, g2
      end.
      rewrite Hst in Hnodes. by rewrite Hnodes.
  - destruct (AddKnService_spec service c cs g Hc) as (g1 & Hrun & Hnodes & _).
    cbn zeta in Hnodes.
    assert (∃ n, nodes g1 !! servingKey (svc_Kind service) (svc_Name service) = Some n)
      as [n Hn].
    { rewrite Hnodes.
      destruct (nodes g !! servingKey (svc_Kind service) (svc_Name service)) as [n|] eqn:Hn;
        [by exists n|].
      eexists. apply lookup_insert_eq. }
    exists n, g1. split; [done|]. split; [done|].
    rewrite getOrCreateSubscriber_eq, subscriberKey_ref.
    cbn [ref_APIVersion ref_Kind ref_Name]. by rewrite refKey_servingKey, Hn.
Qed.

Lemma service_and_subscriber_reference_share_node_witness :
  (∃ n g1 g2,
     getOrCreateSubscriber
       (Some (mkSubscriber (Some (mkRef "serving.knative.dev/v1beta1" "Service" "svc")) None))
       (New "ns") = Ok (Some n) g1
     ∧ AddKnService (mkService "svc" "Service" "serving.knative.dev/v1alpha1"
                       [mkContainer []]) g1 = Ok tt g2
     ∧ nodes g2 = nodes g1
     ∧ nodes g2 !! servingKey "Service" "svc" = Some n)
  ∧ (∃ n g1,
       AddKnService (mkService "svc" "Service" "serving.knative.dev/v1alpha1"
                       [mkContainer []]) (New "ns") = Ok tt g1
       ∧ nodes g1 !! servingKey "Service" "svc" = Some n
       ∧ getOrCreateSubscriber
           (Some (mkSubscriber (Some (mkRef "serving.knative.dev/v1beta1" "Service" "svc"))
                    None)) g1 = Ok (Some n) g1).
Proof.
  apply (service_and_subscriber_reference_share_node
           (mkService "svc" "Service" "serving.knative.dev/v1alpha1" [mkContainer []])
           (mkContainer []) [] (New "ns")).
  reflexivity.
Defined.

(** ** The ends of the edges *)

Lemma ends_refl P g : ends P g g.
Proof. intros e He. by left. Qed.

Lemma ends_trans P g1 g2 g3 : ends P g1 g2 → ends P g2 g3 → ends P g1 g3.
Proof. intros H1 H2 e [He|He]%H2; [by apply H1|by right]. Qed.

Lemma ends_weaken (P Q : Edge → Prop) g g' : (∀ e, P e → Q e) → ends P g g' → ends Q g g'.
Proof. intros HPQ H e [He|He]%H; [by left|right; auto]. Qed.

Ltac ends_solve :=
  let e := fresh "e" in
  let He := fresh "He" in
  intros e He; unfold edges in *; msimpl;
  repeat (apply elem_of_app in He as [He|He]);
  first [ left; exact He
        | apply list_elem_of_singleton in He; subst e; right;
          first [ split; by eexists | by eexists ] ].

Lemma AddChannel_ends (c : Channel) (g : Graph) : post (AddChannel c) g (ends has_both_ends g).
Proof. unfold post, AddChannel. mrun. timeout 20 ends_solve. Qed.

Lemma AddBroker_ends (b : Broker) (g : Graph) : post (AddBroker b) g (ends has_both_ends g).
Proof. unfold post, AddBroker. mrun. timeout 20 ends_solve. Qed.

Lemma AddTrigger_ends (t : Trigger) (g : Graph) : post (AddTrigger t) g (ends has_both_ends g).
Proof. unfold post, AddTrigger. mrun. all: timeout 20 ends_solve. Qed.

Lemma AddSource_ends (s : SourceType) (g : Graph) : post (AddSource s) g (ends has_both_ends g).
Proof.
  unfold post, AddSource, AddSource_node, AddSource_sink.
  case_decide; mrun. all: timeout 20 ends_solve.
Qed.

Lemma AddSubscription_ends colors (s : Subscription) (g : Graph) :
  post (AddSubscription colors s) g (ends has_both_ends g).
Proof.
  unfold post, AddSubscription, newEdge, index.
  mrun.
  all: try exact I.
  all: timeout 20 ends_solve.
Qed.

Lemma AddSequence_steps_ends name sg num steps previousNode g :
  match AddSequence_steps name sg num steps previousNode g with
  | Ok _ g' => ends has_both_ends g g'
  | Panic _ => True
  end.
Proof.
  revert num previousNode g.
  induction steps as [|st steps IH]; intros num previousNode g; cbn [AddSequence_steps].
  - msimpl. apply ends_refl.
  - mrun.
    all: match goal with |- context [AddSequence_steps _ _ _ _ ?stepn ?st] =>
           assert (ends has_both_ends g st) as Hst by (timeout 20 ends_solve);
           specialize (IH (S num) stepn st);
           destruct (AddSequence_steps _ _ _ _ stepn st); [|done];
           by eapply ends_trans
         end.
Qed.

Lemma AddSequence_ends (seq : Sequence) (g : Graph) :
  post (AddSequence seq) g (ends has_both_ends g).
Proof.
  unfold post, AddSequence. msimpl.
  match goal with |- context [AddSequence_steps _ _ _ _ ?sn ?st] =>
    assert (ends has_both_ends g st) as Hst by (timeout 20 ends_solve);
    pose proof (AddSequence_steps_ends (seq_Name seq) (length (subgraph_heap g)) 0
                  (seq_Steps seq) sn st) as Hloop;
    destruct (AddSequence_steps _ _ _ _ sn st) as [last g1|]; [|done]
  end.
  pose proof (ends_trans _ _ _ _ Hst Hloop) as H1. clear Hst Hloop.
  mrun.
  all: eapply ends_trans; [exact H1|]; timeout 20 ends_solve.
Qed.

Lemma AddKnService_ends (service : Service) (g : Graph) :
  post (AddKnService service) g (ends has_source g).
Proof.
  unfold post.
  destruct (svc_Containers service) as [|c cs] eqn:Hc.
  - unfold AddKnService. rewrite Hc. msimpl.
    destruct (nodes g !! _); rewrite ?setNodeShapeForKind_eq; msimpl; by rewrite index_nil.
  - destruct (AddKnService_spec service c cs g Hc) as (g' & -> & _ & _ & He).
    intros e Hin. rewrite He in Hin.
    apply elem_of_app in Hin as [Hin|Hin]; [by left|right].
    apply list_elem_of_fmap in Hin as (env & -> & _). by eexists.
Qed.

Lemma Add_ends colors (r : Resource) (g : Graph) :
  post (Add colors r) g
    (ends (λ e, has_source e ∧ ((∀ s, r ≠ RKnService s) → has_both_ends e)) g).
Proof.
  assert (∀ g', ends has_both_ends g g' →
            ends (λ e, has_source e ∧ ((∀ s, r ≠ RKnService s) → has_both_ends e)) g g') as Hw.
  { intros g'. apply ends_weaken. intros e He. split; [apply He|done]. }
  destruct r as [c|s|b|s|t|s|s]; cbn [Add].
  - exact (post_weaken _ _ _ _ Hw (AddChannel_ends c g)).
  - exact (post_weaken _ _ _ _ Hw (AddSubscription_ends colors s g)).
  - exact (post_weaken _ _ _ _ Hw (AddBroker_ends b g)).
  - exact (post_weaken _ _ _ _ Hw (AddSource_ends s g)).
  - exact (post_weaken _ _ _ _ Hw (AddTrigger_ends t g)).
  - eapply post_weaken; [|exact (AddKnService_ends s g)].
    intros g'. apply ends_weaken. intros e He. split; [done|]. intros Hs. by destruct (Hs s).
  - exact (post_weaken _ _ _ _ Hw (AddSequence_ends s g)).
Qed.

Lemma build_ends colors (rs : list Resource) (g g' : Graph) :
  build colors rs g = Ok tt g' →
  ends (λ e, has_source e ∧ ((∀ s, RKnService s ∉ rs) → has_both_ends e)) g g'.
Proof.
  unfold build. revert g. induction rs as [|r rs IH]; intros g; cbn [forM_]; msimpl.
  - intros [= <-]. apply ends_refl.
  - pose proof (Add_ends colors r g) as Hr. unfold post in Hr.
    destruct (Add colors r g) as [[] g1|]; [|done].
    intros Hrest%IH. eapply ends_trans.
    + eapply ends_weaken; [|exact Hr]. intros e [Hs Hb]. split; [done|].
      intros Hno. apply Hb. intros s ->. apply (Hno s). by left.
    + eapply ends_weaken; [|exact Hrest]. intros e [Hs Hb]. split; [done|].
      intros Hno. apply Hb. intros s Hin. apply (Hno s). by right.
Qed.

(** X17: every edge of a build from [New] has a source node, and an edge without
    a destination can only come from [AddKnService]: a build that adds no
    service leaves every edge with both ends. *)
Theorem only_service_edges_lack_a_destination
    colors (rs : list Resource) (ns : string) (g : Graph) :
  build colors rs (New ns) = Ok tt g →
  (∀ e, e ∈ edges g → is_Some (edge_src e))
  ∧ ((∀ s, RKnService s ∉ rs) → ∀ e, e ∈ edges g → is_Some (edge_dst e)).
Proof.
  intros Hends%build_ends. split.
  - intros e [He|[He _]]%Hends; [by apply elem_of_nil in He|done].
  - intros Hno e [He|[_ He]]%Hends; [by apply elem_of_nil in He|]. by apply He.
Qed.

Lemma only_service_edges_lack_a_destination_witness :
  ∃ g,
    build ["red"]
      [RBroker (mkBroker "default" "http://broker/");
       RTrigger (mkTrigger "t" "default" None (Some (mkSubscriber None (Some "http://svc/"))));
       RSource (mkSource "src" "PingSource" "sources.eventing.knative.dev/v1alpha1"
                  (Some "http://elsewhere/"))]
      (New "ns") = Ok tt g
    ∧ (∀ e, e ∈ edges g → is_Some (edge_src e))
    ∧ ((∀ s, RKnService s ∉
             [RBroker (mkBroker "default" "http://broker/");
              RTrigger (mkTrigger "t" "default" None
                          (Some (mkSubscriber None (Some "http://svc/"))));
              RSource (mkSource "src" "PingSource" "sources.eventing.knative.dev/v1alpha1"
                         (Some "http://elsewhere/"))])
       → ∀ e, e ∈ edges g → is_Some (edge_dst e)).
Proof.
  set (rs := [RBroker (mkBroker "default" "http://broker/");
              RTrigger (mkTrigger "t" "default" None
                          (Some (mkSubscriber None (Some "http://svc/"))));
              RSource (mkSource "src" "PingSource" "sources.eventing.knative.dev/v1alpha1"
                         (Some "http://elsewhere/"))]).
  destruct (build_returns ["red"] rs (New "ns")) as (g & H & _);
    [discriminate| |done|done|].
  { intros s Hs. repeat (apply elem_of_cons in Hs as [Hs|Hs]; [discriminate Hs|]).
    by apply elem_of_nil in Hs. }
  exists g. split; [done|].
  exact (only_service_edges_lack_a_destination ["red"] rs "ns" g H).
Defined.

(** X18: a source whose sink is the address of a broker gets a sink edge that
    ends at the node of the broker and carries the name of the cluster of
    the broker as its [lhead]. *)
Theorem sink_edge_into_a_broker_names_its_cluster (b : Broker) (s : SourceType) (g : Graph) :
  TrimSuffix (brk_Address b) "/" ≠ "" →
  sinkDNS s = TrimSuffix (brk_Address b) "/" →
  gvkKey (FromAPIVersionAndKind (src_APIVersion s) (src_Kind s)) (src_Name s)
    ≠ brokerKey (brk_Name b) →
  ∃ g1 g2,
    AddBroker b g = Ok tt g1
    ∧ AddSource s g1 = Ok tt g2
    ∧ names g2 !! length (node_heap g) = Some ("Broker " +:+ TrimSuffix (brk_Address b) "/")
    ∧ edges g2
      = edges g
        ++ [mkEdge (Some (S (length (node_heap g)))) (Some (length (node_heap g)))
              {["lhead" := "cluster_" +:+ pretty (size (subgraphs g))]}].
Proof.
  intros Hne Hsink Hkey. unfold AddBroker, AddSource, AddSource_node. mrun.
  eexists _, _. split; [reflexivity|]. msimpl.
  unfold AddSource_sink. cbn zeta. rewrite decide_True by congruence.
  unfold lookupSink. msimpl. rewrite Hsink. look. msimpl. look. msimpl.
  rewrite !list_lookup_alter_eq, lookup_app_r, Nat.sub_diag by lia.
  cbn [lookup list_lookup fmap option_fmap option_map default sg_name sg_set sg_add_node].
  split; [reflexivity|]. msimpl. hsimpl. split.
  - rewrite <- app_assoc. apply list_lookup_middle. by rewrite length_fmap.
  - rewrite Nat.add_1_r. unfold EdgeSet, NewEdge. cbn. by rewrite insert_empty.
Qed.

Lemma sink_edge_into_a_broker_names_its_cluster_witness :
  ∃ g1 g2,
    AddBroker (mkBroker "default" "http://broker/") (New "ns") = Ok tt g1
    ∧ AddSource (mkSource "src" "PingSource" "sources.eventing.knative.dev/v1alpha1"
                   (Some "http://broker")) g1 = Ok tt g2
    ∧ names g2 !! length (node_heap (New "ns"))
      = Some ("Broker " +:+ TrimSuffix "http://broker/" "/")
    ∧ edges g2
      = edges (New "ns")
        ++ [mkEdge (Some (S (length (node_heap (New "ns")))))
              (Some (length (node_heap (New "ns"))))
              {["lhead" := "cluster_" +:+ pretty (size (subgraphs (New "ns")))]}].
Proof.
  apply (sink_edge_into_a_broker_names_its_cluster
           (mkBroker "default" "http://broker/")
           (mkSource "src" "PingSource" "sources.eventing.knative.dev/v1alpha1"
              (Some "http://broker"))
           (New "ns")); by vm_compute.
Defined.

(** ** Services and their containers *)

(** The node [AddKnService] builds for a service whose key has no node. *)
Lemma AddKnService_new_node (service : Service) (g g' : Graph) :
  nodes g !! servingKey (svc_Kind service) (svc_Name service) = None →
  AddKnService service g = Ok tt g' →
  node_heap g' !! length (node_heap g)
    = Some (mkNode (svc_Name service +:+ nl +:+ "Kind: " +:+ svc_Kind service
                    +:+ nl +:+ svc_APIVersion service)
              (<["shape":="septagon"]> ∅))
  ∧ length (node_heap g) ∈ toplevel g'.
Proof.
  intros Hmiss. unfold AddKnService. msimpl. rewrite Hmiss.
  rewrite setNodeShapeForKind_eq. msimpl.
  destruct (svc_Containers service) as [|c cs]; [by rewrite index_nil|].
  rewrite index_head.
  match goal with |- context [forM_ _ _ ?st] =>
    destruct (AddKnService_env_spec (length (node_heap g)) (ctr_Env c) st)
      as (g1 & Hg1 & _ & _ & Hheap & _);
    pose proof (AddKnService_env_grows (length (node_heap g)) (ctr_Env c) st) as Hgrows
  end.
  unfold post in Hgrows. msimpl. rewrite Hg1 in *. intros [= <-].
  destruct Hgrows as [(_ & _ & Htop & _) _]. split.
  - eapply prefix_lookup_Some; [|exact Hheap].
    rewrite !list_lookup_alter_eq, lookup_app_r, Nat.sub_diag by lia.
    cbn [lookup list_lookup fmap option_fmap option_map].
    unfold shapeForKind, node_set. by repeat case_decide.
  - destruct Htop as [l Hl]. unfold toplevel in *. msimpl. rewrite Hl.
    rewrite !elem_of_app, list_elem_of_singleton. auto.
Qed.

(** C2, amended: [AddKnService] does not check the container list.  On a
    service without containers it panics with an index out of range.  On
    every other service it returns: the node of the service is registered
    under its key, the node found there or a new one at the top level of the
    document, and each [SINK] and [TARGET] entry of the first container is
    wired by one edge from that node, in order. *)
Theorem C2_AddKnService_returns_iff_container (service : Service) (g : Graph) :
  let key := servingKey (svc_Kind service) (svc_Name service) in
  let svc := default (length (node_heap g)) (nodes g !! key) in
  match svc_Containers service with
  | [] => AddKnService service g = Panic "runtime error: index out of range"
  | c :: _ =>
      ∃ g',
        AddKnService service g = Ok tt g'
        ∧ nodes g' !! key = Some svc
        ∧ (nodes g !! key = None →
           node_heap g' !! svc
             = Some (mkNode (svc_Name service +:+ nl +:+ "Kind: " +:+ svc_Kind service
                             +:+ nl +:+ svc_APIVersion service)
                       (<["shape":="septagon"]> ∅))
           ∧ svc ∈ toplevel g')
        ∧ edges g'
          = edges g
            ++ ((λ env, NewEdge (Some svc)
                          (nodes g' !! default "" (dnsToKey g !! TrimSuffix (env_Value env) "/")))
                <$> filter (λ env, env_Name env = "SINK" ∨ env_Name env = "TARGET")
                      (ctr_Env c))
  end.
Proof.
  intros key svc.
  destruct (svc_Containers service) as [|c cs] eqn:Hc.
  - unfold AddKnService. rewrite Hc. msimpl.
    destruct (nodes g !! servingKey (svc_Kind service) (svc_Name service));
      rewrite ?setNodeShapeForKind_eq; msimpl; by rewrite index_nil.
  - destruct (AddKnService_spec service c cs g Hc) as (g' & Hrun & Hnodes & _ & Hedges).
    fold key svc in Hnodes, Hedges.
    exists g'. split; [done|]. split.
    { rewrite Hnodes. subst svc. destruct (nodes g !! key) as [n|] eqn:Hn; [done|].
      apply lookup_insert_eq. }
    split; [|done].
    intros Hmiss. subst svc. rewrite Hmiss. cbn [default].
    by apply (AddKnService_new_node service g g').
Qed.

(** ** The subscriber that is absent *)

(** Closes [l !! k = Some x] for [l] a list of appended pieces. *)
Ltac last_name :=
  repeat first
    [ rewrite lookup_app_l by (rewrite ?length_app, ?length_fmap; cbn [length]; lia)
    | rewrite lookup_app_r by (rewrite ?length_app, ?length_fmap; cbn [length]; lia) ];
  rewrite ?length_app, ?length_fmap; cbn [length];
  match goal with |- [ _ ] !! ?k = _ => replace k with 0 by lia end;
  reflexivity.

(** [AddTrigger] of a trigger without a subscriber. *)
Lemma AddTrigger_absent (t : Trigger) (g : Graph) :
  trg_Subscriber t = None →
  ∃ g' tn n,
    AddTrigger t g = Ok tt g'
    ∧ nodes g' !! "?" = Some n
    ∧ (∀ m, nodes g !! "?" = Some m → n = m)
    ∧ (nodes g !! "?" = None → names g' !! n = Some "?")
    ∧ nodes g' !! triggerKey (trg_Name t) = Some tn
    ∧ edges g' = edges g ++ [EdgeSet (NewEdge (Some tn) (Some n)) "dir" "both"].
Proof.
  intros Hsub. unfold AddTrigger. rewrite Hsub.
  mrun; rewrite subscriberKey_absent in *; look.
  all: eexists _, _, _; (split; [reflexivity|]); msimpl; hsimpl; look.
  all: rewrite ?(lookup_insert_ne _ "?") by (apply not_eq_sym; kneq0).
  all: look.
  all: split; [reflexivity|].
  all: split; [first [intros m [= <-]; reflexivity | intros m Hm; discriminate Hm]|].
  all: split; [first [intros Hn; discriminate Hn | intros _; last_name]|].
  all: split; reflexivity.
Qed.

(** [AddSubscription] of a subscription without a subscriber. *)
Lemma AddSubscription_absent colors (s : Subscription) (g : Graph) :
  subn_Subscriber s = None → colors ≠ [] → (0 ≤ edgeCount g)%Z →
  ∃ g' n rest,
    AddSubscription colors s g = Ok tt g'
    ∧ nodes g' !! "?" = Some n
    ∧ (∀ m, nodes g !! "?" = Some m → n = m)
    ∧ (nodes g !! "?" = None → names g' !! n = Some "?")
    ∧ nodes g' !! subscriptionKey (subn_Name s) = Some (length (node_heap g))
    ∧ edges g'
      = edges g
        ++ EdgeSet (NewEdge (Some (length (node_heap g))) (Some n)) "dir" "both" :: rest.
Proof.
  intros Hsub Hcolors Hcount. unfold AddSubscription. rewrite Hsub.
  mrun_sub; rewrite subscriberKey_absent in *; look.
  all: eexists _, _, _; (split; [reflexivity|]); msimpl; hsimpl; look.
  all: rewrite ?(lookup_insert_ne _ "?") by (apply not_eq_sym; kneq0).
  all: look.
  all: split; [reflexivity|].
  all: split; [first [intros m [= <-]; reflexivity | intros m Hm; discriminate Hm]|].
  all: split; [first [intros Hn; discriminate Hn | intros _; last_name]|].
  all: split; [reflexivity|].
  all: rewrite <- ?app_assoc; reflexivity.
Qed.

(** The loop over the steps, for the steps that name no subscriber: the
    edge of such a step ends at the node registered under ["?"]. *)
Lemma AddSequence_steps_absent name sg num steps previousNode g :
  ∃ g' last added,
    AddSequence_steps name sg num steps previousNode g = Ok last g'
    ∧ edges g' = edges g ++ added
    ∧ names g `prefix_of` names g'
    ∧ (∀ m, nodes g !! "?" = Some m → nodes g' !! "?" = Some m)
    ∧ (∀ k, nodes g' !! "?" = Some k →
            nodes g !! "?" = Some k ∨ names g' !! k = Some "?")
    ∧ (∀ i step, steps !! i = Some step → sub_URI step = None → sub_Ref step = None →
         ∃ stepn n,
           nodes g' !! "?" = Some n
           ∧ nodes g' !! sequenceStepKey name (num + i) = Some stepn
           ∧ EdgeSet (NewEdge (Some stepn) (Some n)) "dir" "both" ∈ added).
Proof.
  revert num previousNode g.
  induction steps as [|st steps IH]; intros num previousNode g; cbn [AddSequence_steps].
  - exists g, previousNode, []. msimpl. rewrite app_nil_r.
    repeat split; try done; auto.
  - mrun.
    all: repeat first [rewrite length_alter in * | rewrite length_app in *];
      cbn [length] in *.
    all: match goal with |- context [AddSequence_steps _ _ _ _ ?stepn ?s1] =>
           destruct (IH (S num) stepn s1)
             as (g' & last & added & Hrun & Hedges & Hpre & Hstable & Hnew & Hsteps);
           destruct (AddSequence_steps_spec name sg (S num) steps stepn s1)
             as (g'' & ids & ? & Hrun' & _ & _ & _ & _ & _ & Hframe & _);
           rewrite Hrun in Hrun'; injection Hrun' as _ <-;
           clear IH; rewrite Hrun;
           assert (nodes g' !! sequenceStepKey name num = Some stepn) as Hstepn
             by (apply Hframe; [msimpl; look; reflexivity|];
                 intros j E%sequenceStepKey_inj; lia);
           exists g', last
         end.
    all: msimpl.
    + (* the subscriber of the step has a node *)
      eexists. split; [reflexivity|].
      split; [rewrite Hedges; msimpl; rewrite <- !app_assoc; reflexivity|].
      split; [etrans; [|exact Hpre]; msimpl; hsimpl; by eexists|].
      split; [intros m Hm; apply Hstable; msimpl; look; reflexivity|].
      split.
      { intros k [Hk|Hk]%Hnew; [left|by right].
        msimpl. rewrite lookup_insert_ne in Hk by kneq0. done. }
      intros [|i] step Hi Huri Href.
      * injection Hi as <-. destruct st as [r u]. cbn in Huri, Href. subst r u.
        rewrite subscriberKey_empty in *.
        match goal with H : _ !! "?" = Some ?n |- _ => exists (length (node_heap g)), n end.
        split; [apply Hstable; msimpl; done|].
        split; [by rewrite Nat.add_0_r|].
        rewrite !elem_of_app, !list_elem_of_singleton. auto.
      * destruct (Hsteps i step Hi Huri Href) as (stepn & n' & H1 & H2 & H3).
        exists stepn, n'. split; [done|]. split; [by rewrite <- Nat.add_succ_comm|].
        rewrite !elem_of_app. auto.
    + (* the subscriber of the step gets a node *)
      eexists. split; [reflexivity|].
      split; [rewrite Hedges; msimpl; rewrite <- !app_assoc; reflexivity|].
      split; [etrans; [|exact Hpre]; msimpl; hsimpl; rewrite <- ?app_assoc; by eexists|].
      split; [intros m Hm; apply Hstable; msimpl; look; reflexivity|].
      assert (subscriberKey (Some st) = "?" →
              nodes g' !! "?" = Some (length (node_heap g) + 1)
              ∧ names g' !! (length (node_heap g) + 1) = Some "?") as Hfresh.
      { intros Hkey. split.
        - apply Hstable. msimpl. rewrite Hkey. apply lookup_insert_eq.
        - eapply prefix_lookup_Some; [|exact Hpre]. msimpl. hsimpl.
          rewrite (subscriberKey_question _ Hkey). last_name. }
      split.
      { intros k Hk. destruct (Hnew k Hk) as [Hk'|Hk']; [|by right].
        msimpl. destruct (decide (subscriberKey (Some st) = "?")) as [Hkey|Hkey].
        - right. destruct (Hfresh Hkey) as [Hq Hn]. rewrite Hq in Hk.
          injection Hk as <-. done.
        - left. rewrite !lookup_insert_ne in Hk' by first [done|kneq0]. done. }
      intros [|i] step Hi Huri Href.
      * injection Hi as <-. destruct st as [r u]. cbn in Huri, Href. subst r u.
        destruct (Hfresh subscriberKey_empty) as [Hq _].
        exists (length (node_heap g)), (length (node_heap g) + 1).
        split; [done|]. split; [by rewrite Nat.add_0_r|].
        rewrite !elem_of_app, !list_elem_of_singleton. auto.
      * destruct (Hsteps i step Hi Huri Href) as (stepn & n' & H1 & H2 & H3).
        exists stepn, n'. split; [done|]. split; [by rewrite <- Nat.add_succ_comm|].
        rewrite !elem_of_app. auto.
Qed.

(** [AddSequence], for the steps that name no subscriber. *)
Lemma AddSequence_absent (seq : Sequence) (g : Graph) :
  ∃ g' added,
    AddSequence seq g = Ok tt g'
    ∧ edges g' = edges g ++ added
    ∧ (∀ i step, seq_Steps seq !! i = Some step → sub_URI step = None → sub_Ref step = None →
         ∃ stepn n,
           nodes g' !! "?" = Some n
           ∧ (∀ m, nodes g !! "?" = Some m → n = m)
           ∧ (nodes g !! "?" = None → names g' !! n = Some "?")
           ∧ nodes g' !! sequenceStepKey (seq_Name seq) i = Some stepn
           ∧ EdgeSet (NewEdge (Some stepn) (Some n)) "dir" "both" ∈ added).
Proof.
  unfold AddSequence. msimpl.
  match goal with |- context [AddSequence_steps ?name ?sg ?num ?steps ?sn ?st] =>
    destruct (AddSequence_steps_absent name sg num steps sn st)
      as (g1 & last & added & -> & Hedges & [more Hnames] & Hstable & Hnew & Hsteps)
  end.
  msimpl.
  assert (∀ i step, seq_Steps seq !! i = Some step → sub_URI step = None →
            sub_Ref step = None →
            ∃ stepn n,
              nodes g1 !! "?" = Some n
              ∧ (∀ m, nodes g !! "?" = Some m → n = m)
              ∧ (nodes g !! "?" = None →
                 (node_name <$> node_heap g1) !! n = Some "?")
              ∧ nodes g1 !! sequenceStepKey (seq_Name seq) i = Some stepn
              ∧ EdgeSet (NewEdge (Some stepn) (Some n)) "dir" "both" ∈ added) as Hall.
  { intros i step Hi Huri Href.
    destruct (Hsteps i step Hi Huri Href) as (stepn & n & Hq & Hk & He).
    exists stepn, n. split; [done|]. split.
    { intros m Hm. specialize (Hstable m). rewrite lookup_insert_ne in Hstable by kneq0.
      rewrite (Hstable Hm) in Hq. by injection Hq. }
    split; [|done].
    intros Hnone. destruct (Hnew n Hq) as [Hold|Hname]; [|done].
    rewrite lookup_insert_ne in Hold by kneq0. rewrite Hnone in Hold. discriminate Hold. }
  clear Hstable Hnew Hsteps Hnames.
  mrun; eexists _, (added ++ _); (split; [reflexivity|]); msimpl; hsimpl.
  all: split;
    [ rewrite Hedges; msimpl; rewrite <- ?app_assoc;
      first [reflexivity | f_equal; symmetry; apply app_nil_r]|].
  all: intros i step Hi Huri Href;
    destruct (Hall i step Hi Huri Href) as (stepn & n' & Hq & Hm & Hn & Hk & He);
    exists stepn, n'; (split; [exact Hq|]); (split; [exact Hm|]);
    (split; [|split; [exact Hk|rewrite elem_of_app; by left]]);
    intros Hnone; specialize (Hn Hnone);
    first [ exact Hn
          | rewrite lookup_app_l; [exact Hn|by eapply lookup_lt_Some] ].
Qed.

(** C5: the subscriber that is absent has one node, the node registered
    under the key ["?"].  The first resolution builds it with the name
    ["?"] and registers it; every build keeps it there; and the
    resolutions inside [AddTrigger], [AddSubscription] and the steps of
    [AddSequence] end their subscriber edge at that node, whether it was
    registered before the call or by the call. *)
Theorem C5_absent_subscriber_is_one_node colors (g : Graph) :
  let shared (g' : Graph) (n : NodeId) :=
    nodes g' !! "?" = Some n
    ∧ (∀ m, nodes g !! "?" = Some m → n = m)
    ∧ (nodes g !! "?" = None → names g' !! n = Some "?") in
  (∃ g' n, getOrCreateSubscriber None g = Ok (Some n) g' ∧ shared g' n)
  ∧ (∀ t : Trigger, trg_Subscriber t = None →
       ∃ g' tn n,
         AddTrigger t g = Ok tt g' ∧ shared g' n
         ∧ nodes g' !! triggerKey (trg_Name t) = Some tn
         ∧ edges g' = edges g ++ [EdgeSet (NewEdge (Some tn) (Some n)) "dir" "both"])
  ∧ (∀ s : Subscription, subn_Subscriber s = None → colors ≠ [] → (0 ≤ edgeCount g)%Z →
       ∃ g' n rest,
         AddSubscription colors s g = Ok tt g' ∧ shared g' n
         ∧ nodes g' !! subscriptionKey (subn_Name s) = Some (length (node_heap g))
         ∧ edges g'
           = edges g
             ++ EdgeSet (NewEdge (Some (length (node_heap g))) (Some n)) "dir" "both"
                :: rest)
  ∧ (∀ seq : Sequence,
       ∃ g' added,
         AddSequence seq g = Ok tt g'
         ∧ edges g' = edges g ++ added
         ∧ ∀ i step, seq_Steps seq !! i = Some step →
             sub_URI step = None → sub_Ref step = None →
             ∃ stepn n,
               shared g' n
               ∧ nodes g' !! sequenceStepKey (seq_Name seq) i = Some stepn
               ∧ EdgeSet (NewEdge (Some stepn) (Some n)) "dir" "both" ∈ added)
  ∧ (∀ (rs : list Resource) (g2 : Graph) (n : NodeId),
       nodes g !! "?" = Some n → build colors rs g = Ok tt g2 →
       nodes g2 !! "?" = Some n ∧ getOrCreateSubscriber None g2 = Ok (Some n) g2).
Proof.
  intros shared. subst shared. cbn beta.
  split.
  { rewrite getOrCreateSubscriber_eq, subscriberKey_absent.
    destruct (nodes g !! "?") as [n|] eqn:Hq.
    - exists g, n. split; [done|]. split; [done|]. split; [|done]. by intros m [= <-].
    - eexists _, _. split; [reflexivity|]. msimpl. hsimpl.
      split; [apply lookup_insert_eq|]. split; [done|]. intros _. last_name. }
  split.
  { intros t Ht.
    destruct (AddTrigger_absent t g Ht) as (g' & tn & n & Hrun & Hq & Hm & Hn & Hk & He).
    by exists g', tn, n. }
  split.
  { intros s Hs Hcolors Hcount.
    destruct (AddSubscription_absent colors s g Hs Hcolors Hcount)
      as (g' & n & rest & Hrun & Hq & Hm & Hn & Hk & He).
    by exists g', n, rest. }
  split.
  { intros seq. destruct (AddSequence_absent seq g) as (g' & added & Hrun & He & Hsteps).
    exists g', added. split; [done|]. split; [done|].
    intros i step Hi Huri Href.
    destruct (Hsteps i step Hi Huri Href) as (stepn & n & Hq & Hm & Hn & Hk & Hin).
    by exists stepn, n. }
  intros rs g2 n Hn Hbuild.
  apply build_step in Hbuild as [_ (_ & Hq & _)].
  split; [by apply Hq|].
  rewrite getOrCreateSubscriber_eq, subscriberKey_absent. by rewrite (Hq _ Hn).
Qed.

Lemma C5_witness :
  ∃ g1 g2 tn1 tn2 n,
    AddTrigger (mkTrigger "t1" "default" None None) (New "ns") = Ok tt g1
    ∧ AddTrigger (mkTrigger "t2" "default" None None) g1 = Ok tt g2
    ∧ names g1 !! n = Some "?"
    ∧ nodes g2 !! "?" = Some n
    ∧ edges g2 = [EdgeSet (NewEdge (Some tn1) (Some n)) "dir" "both";
                  EdgeSet (NewEdge (Some tn2) (Some n)) "dir" "both"].
Proof.
  destruct (C5_absent_subscriber_is_one_node [] (New "ns")) as (_ & Htrigger1 & _).
  destruct (Htrigger1 (mkTrigger "t1" "default" None None) eq_refl)
    as (g1 & tn1 & n & Hrun1 & (Hq1 & _ & Hname) & _ & He1).
  destruct (C5_absent_subscriber_is_one_node [] g1) as (_ & Htrigger2 & _).
  destruct (Htrigger2 (mkTrigger "t2" "default" None None) eq_refl)
    as (g2 & tn2 & n2 & Hrun2 & (Hq2 & Hsame & _) & _ & He2).
  rewrite (Hsame n Hq1) in *.
  exists g1, g2, tn1, tn2, n. split; [exact Hrun1|]. split; [exact Hrun2|].
  split; [apply Hname; reflexivity|]. split; [exact Hq2|].
  rewrite He2, He1. reflexivity.
Defined.
